(** * mvs-carousel: slide geometry and motion engine

    A shallow embedding of [src/mvs-carousel.js] (the [Carousel] class and
    its helper [Carousel.Nav]) together with the properties of its
    specification.

    Conventions of the embedding
    - JavaScript numbers that hold pixel quantities are exact rationals
      ([Q]); [===] and [!==] on them are [Qeq_bool] and its negation.
      Slide indices, slide counts and directions are integers ([Z]).
    - The instance ([this]) is the record [Carousel]; every method is a
      function that takes the instance and returns the updated one.
    - [Function.delay] and the relayed [transitionend] listener are
      explicit queues of closures inside the instance; the host fires
      them through [step].
    - Callbacks are data ([Callback]); calling a user callback appends
      [Called id] to the instance's observable trace, firing the "moved"
      event appends [Moved to].
    - The element is its measures ([getSize().x], [getScrollSize().x] at
      offset 0), its children and the transform of their style. CSS
      classes, the [data-slides] attribute and the periodical timer of
      [start]/[stop] are left out: no property below reads them. *)

From Stdlib Require Import String QArith ZArith List Bool Lia Lqa Qround.
Import ListNotations.
Open Scope Q_scope.

(** ** Numbers *)

(** [a < b] on pixel quantities. *)
Definition Qlt_bool (a b : Q) : bool := negb (Qle_bool b a).

(** [Math.abs]. *)
Definition Math_abs (a : Q) : Q := if Qlt_bool a 0 then - a else a.

(** [Math.ceil]. *)
Definition Math_ceil (a : Q) : Z := Qceiling a.

(** ** Carousel.Nav *)

Module Nav.

(** A [button] of the nav element: its text and whether it carries the
    [-selected] class. *)
Record Item := mkItem { text : Z; selected : bool }.

(** The children of the nav element. *)
Definition t := list Item.

(** [children.removeClass('-selected')]. *)
Definition removeClass (items : t) : t :=
  map (fun it => mkItem (text it) false) items.

(** [children[i].addClass('-selected')], for an [i] that is in range. *)
Fixpoint addClassAt (i : nat) (items : t) : t :=
  match items, i with
  | [], _ => []
  | it :: rest, O => mkItem (text it) true :: rest
  | it :: rest, S j => it :: addClassAt j rest
  end.

(** [children[i]] exists. *)
Definition has_child {A : Type} (i : Z) (l : list A) : bool :=
  (0 <=? i)%Z && (i <? Z.of_nat (length l))%Z.

(** [setSelected(index)]; the parameter is [None] when the argument is
    omitted, and [index || 0] turns that into 0. *)
Definition setSelected (index : option Z) (items : t) : t :=
  let i := match index with Some i => i | None => 0%Z end in
  let children := removeClass items in
  if has_child i children then addClassAt (Z.to_nat i) children
  else children.

(** The [for] loop of [update]: buttons [i], [i+1], ... while
    [i < numOfSlides]; [fuel] is the number of iterations left. *)
Fixpoint buttons (fuel : nat) (i : Z) : t :=
  match fuel with
  | O => []
  | S f => mkItem i false :: buttons f (i + 1)%Z
  end.

(** [update(numOfSlides)]: empty the element, append the buttons 0 ..
    numOfSlides-1 and select the first one. *)
Definition update (numOfSlides : Z) (items : t) : t :=
  setSelected (Some 0%Z) (buttons (Z.to_nat numOfSlides) 0%Z).

(** [initialize(numOfSlides)]; an omitted argument builds no button. *)
Definition initialize (numOfSlides : option Z) : t :=
  setSelected None
    (update (match numOfSlides with Some n => n | None => 0%Z end) []).

(** The indices of the buttons that carry [-selected]. *)
Fixpoint selected_from (i : Z) (items : t) : list Z :=
  match items with
  | [] => []
  | it :: rest =>
      if selected it then i :: selected_from (i + 1)%Z rest
      else selected_from (i + 1)%Z rest
  end.

Definition selected_indices (items : t) : list Z := selected_from 0%Z items.

(** Calls on the nav of a carousel. *)
Inductive Call := Update (numOfSlides : Z) | SetSelected (index : option Z).

Definition call (c : Call) (items : t) : t :=
  match c with
  | Update n => update n items
  | SetSelected i => setSelected i items
  end.

Definition run (cs : list Call) (items : t) : t :=
  fold_left (fun acc c => call c acc) cs items.

End Nav.

(** ** Options *)

(** [options['slide-size']]: null, a pixel count or a percentage string. *)
Inductive SlideSize := SizeNull | SizePx (n : Z) | SizePct (p : Z).

(** [options['slide-alignment']]. *)
Inductive Alignment := AlignLeft | AlignRight | AlignCenter.

(** [options['slide-ends-alignment']]. *)
Inductive EndsAlignment := Sticky | Aligned.

(** [options['slide-mode']]. *)
Inductive SlideMode := Multiple | Single | SingleFlex.

Record Options := mkOptions {
  loop : bool;
  slide_size : SlideSize;
  slide_alignment : Alignment;
  slide_ends_alignment : EndsAlignment;
  slide_mode : SlideMode;
  (** [Modernizr._transitionend] is available *)
  has_transitionend : bool
}.

(** [options['slide-mode'].contains('single')]. *)
Definition contains_single (m : SlideMode) : bool :=
  match m with Multiple => false | Single | SingleFlex => true end.

Definition is_sticky (e : EndsAlignment) : bool :=
  match e with Sticky => true | Aligned => false end.

Definition is_null (s : SlideSize) : bool :=
  match s with SizeNull => true | _ => false end.

Definition is_single_flex (m : SlideMode) : bool :=
  match m with SingleFlex => true | _ => false end.

(** ** The instance *)

(** A child of the list element: [getSize().x] / [offsetWidth] and
    [offsetLeft]. *)
Record Child := mkChild { width : Q; offsetLeft : Q }.

(** The mock model of the carousel. *)
Record Model := mkModel {
  stage_size : Q;
  total_size : Q;
  slide_offset_left : Q;
  slide_offset_right : Q;
  slides : Z;
  current_slide : Z
}.

(** The [opts] argument of [move]. *)
Record MoveOpts := mkOpts { event : option string; transition : option string }.

Definition no_opts : MoveOpts := mkOpts None None.

(** Functions passed as completion callbacks: a function of the caller,
    the empty function that [move] substitutes for a missing one, and the
    [onTransitionEnd] closure of a move (its listener identity, the
    [thisSlide] it captured and the callback it captured). *)
Inductive Callback :=
| CbUser (id : nat)
| CbNoop
| CbTransitionEnd (lid : nat) (to : Z) (k : Callback).

(** The closure that [move] hands to [delay(10)]. *)
Record Delayed := mkDelayed {
  d_direction : Z;
  d_opts : MoveOpts;
  d_callback : Callback;
  d_thisSlide : Z;
  d_target : Q
}.

(** What an observer of the instance sees. *)
Inductive Obs := Moved (to : Z) | Called (id : nat).

Inductive Position := PosStart | PosEnd | PosMiddle.

Record Carousel := mkCarousel {
  options : Options;
  (** the element: its width, its scroll width at offset 0, its children *)
  element_size : Q;
  element_scroll_size : Q;
  children : list Child;
  (** [translateX] of the first child's style, once set *)
  style_offset : option Q;
  data_slide_index : Z;
  data_position : Position;
  model : Model;
  _moving : bool;
  (** [this.currentOffset]; every read is [this.currentOffset || 0], so
      the unset property is 0 *)
  currentOffset : Q;
  nav : option Nav.t;
  (** pending [delay(10)] closures, oldest first *)
  timers : list Delayed;
  (** registered [transitionend] listeners *)
  listeners : list Callback;
  next_listener : nat;
  trace : list Obs
}.

(** Field updates of the instance. *)
Definition set_style_offset (v : option Q) (c : Carousel) : Carousel :=
  mkCarousel (options c) (element_size c) (element_scroll_size c) (children c)
    v (data_slide_index c) (data_position c) (model c) (_moving c)
    (currentOffset c) (nav c) (timers c) (listeners c) (next_listener c)
    (trace c).

Definition set_data (i : Z) (p : Position) (c : Carousel) : Carousel :=
  mkCarousel (options c) (element_size c) (element_scroll_size c) (children c)
    (style_offset c) i p (model c) (_moving c)
    (currentOffset c) (nav c) (timers c) (listeners c) (next_listener c)
    (trace c).

Definition set_model (m : Model) (c : Carousel) : Carousel :=
  mkCarousel (options c) (element_size c) (element_scroll_size c) (children c)
    (style_offset c) (data_slide_index c) (data_position c) m (_moving c)
    (currentOffset c) (nav c) (timers c) (listeners c) (next_listener c)
    (trace c).

Definition set_moving (b : bool) (c : Carousel) : Carousel :=
  mkCarousel (options c) (element_size c) (element_scroll_size c) (children c)
    (style_offset c) (data_slide_index c) (data_position c) (model c) b
    (currentOffset c) (nav c) (timers c) (listeners c) (next_listener c)
    (trace c).

Definition set_currentOffset (v : Q) (c : Carousel) : Carousel :=
  mkCarousel (options c) (element_size c) (element_scroll_size c) (children c)
    (style_offset c) (data_slide_index c) (data_position c) (model c)
    (_moving c) v (nav c) (timers c) (listeners c) (next_listener c)
    (trace c).

Definition set_nav (n : option Nav.t) (c : Carousel) : Carousel :=
  mkCarousel (options c) (element_size c) (element_scroll_size c) (children c)
    (style_offset c) (data_slide_index c) (data_position c) (model c)
    (_moving c) (currentOffset c) n (timers c) (listeners c)
    (next_listener c) (trace c).

Definition set_timers (t : list Delayed) (c : Carousel) : Carousel :=
  mkCarousel (options c) (element_size c) (element_scroll_size c) (children c)
    (style_offset c) (data_slide_index c) (data_position c) (model c)
    (_moving c) (currentOffset c) (nav c) t (listeners c)
    (next_listener c) (trace c).

Definition set_listeners (l : list Callback) (n : nat) (c : Carousel)
  : Carousel :=
  mkCarousel (options c) (element_size c) (element_scroll_size c) (children c)
    (style_offset c) (data_slide_index c) (data_position c) (model c)
    (_moving c) (currentOffset c) (nav c) (timers c) l n (trace c).

Definition set_trace (t : list Obs) (c : Carousel) : Carousel :=
  mkCarousel (options c) (element_size c) (element_scroll_size c) (children c)
    (style_offset c) (data_slide_index c) (data_position c) (model c)
    (_moving c) (currentOffset c) (nav c) (timers c) (listeners c)
    (next_listener c) t.

(** [model.set('current-slide', i)]. *)
Definition set_current_slide (i : Z) (m : Model) : Model :=
  mkModel (stage_size m) (total_size m) (slide_offset_left m)
    (slide_offset_right m) (slides m) i.

(** [fireEvent] and the call of a function of the caller, as seen from
    outside. *)
Definition observe (o : Obs) (c : Carousel) : Carousel :=
  set_trace (trace c ++ [o]) c.

(** ** Offsets *)

(** [getCurrentOffset(raw)]: with [raw], the [translateX] of the first
    child's style when there is a first child and the value is a non-zero
    number, [this.currentOffset || 0] otherwise. *)
Definition getCurrentOffset (raw : bool) (c : Carousel) : Q :=
  if raw then
    match children c, style_offset c with
    | _ :: _, Some v => if Qeq_bool v 0 then currentOffset c else v
    | _, _ => currentOffset c
    end
  else currentOffset c.

(** [_move(to, setAsOffset)]: set the transform of every child and, unless
    [setAsOffset] is false, record [to] as the current offset. *)
Definition _move (to : Q) (setAsOffset : bool) (c : Carousel) : Carousel :=
  let c := match children c with
           | [] => c
           | _ :: _ => set_style_offset (Some to) c
           end in
  if setAsOffset then set_currentOffset to c else c.

(** [getTotalSize()]: measure the scroll width at offset 0 and move back
    to the raw offset. *)
Definition getTotalSize (c : Carousel) : Q * Carousel :=
  let current := getCurrentOffset true c in
  let c := _move 0 true c in
  let size := element_scroll_size c in
  let c := _move current true c in
  (size, c).

(** ** calculate *)

(** The value of [slideSize] before percentages are resolved: a number or
    a percentage string. *)
Inductive SizeVal := Num (q : Q) | Pct (p : Z).

(** The [do ... while] loop of [calculate]. [cur] is [children[index]] on
    entry of the body and [rest] the children after it. The result is
    [slideSize] on exit and whether [children[index]] exists on exit. *)
Fixpoint pack_loop (size slideSize childSize : Q) (cur : Child)
    (rest : list Child) : Q * bool :=
  let slideSize := slideSize + childSize in
  let childSize := width cur in
  if Qle_bool (slideSize + childSize) size then
    match rest with
    | next :: rest' => pack_loop size slideSize childSize next rest'
    | [] => (slideSize, false)
    end
  else (slideSize, match rest with [] => false | _ :: _ => true end).

(** [slideSize] as the branches of [calculate] assign it. *)
Definition raw_slide_size (o : Options) (size totalSize : Q)
    (children : list Child) : SizeVal :=
  match slide_size o with
  | SizeNull =>
      match children with
      | [] => Pct 100
      | first :: rest =>
          match slide_mode o with
          | Single => Num (width first)
          | _ =>
              let '(slideSize, has_next) := pack_loop size 0 0 first rest in
              if negb has_next && Qlt_bool slideSize totalSize then Pct 100
              else Num slideSize
          end
      end
  | SizePx n => if (n =? 0)%Z then Num size else Num (inject_Z n)
  | SizePct p => Pct p
  end.

(** [size * (parseInt(slideSize, 10) / 100)] for a percentage string. *)
Definition resolve_size (size : Q) (v : SizeVal) : Q :=
  match v with
  | Num q => q
  | Pct p => size * (inject_Z p / 100)
  end.

(** The pair [slideOffsetLeft], [slideOffsetRight]. *)
Definition slide_offsets (a : Alignment) (size slideSize : Q) : Q * Q :=
  let half := (size - slideSize) / 2 in
  match a with
  | AlignLeft => (0, half * 2)
  | AlignRight => (half * 2, 0)
  | AlignCenter => (half, half)
  end.

(** The slide count. *)
Definition count_slides (o : Options) (totalSize slideSize : Q)
    (children : list Child) : Z :=
  let slides :=
    if is_null (slide_size o) && contains_single (slide_mode o)
    then Z.of_nat (length children)
    else Math_ceil (totalSize / slideSize) in
  if Qeq_bool slideSize 0 || (slides =? 0)%Z then 1%Z else slides.

(** [calculate()]. *)
Definition calculate (c : Carousel) : Carousel :=
  let size := element_size c in
  let '(totalSize, c) := getTotalSize c in
  let o := options c in
  let slideSize :=
    resolve_size size (raw_slide_size o size totalSize (children c)) in
  let '(slideOffsetLeft, slideOffsetRight) :=
    slide_offsets (slide_alignment o) size slideSize in
  let slides := count_slides o totalSize slideSize (children c) in
  let c :=
    set_model (mkModel size totalSize slideOffsetLeft slideOffsetRight slides
                 (current_slide (model c))) c in
  match nav c with
  | Some n => set_nav (Some (Nav.update slides n)) c
  | None => c
  end.

(** ** move *)

(** [opts.event === 'timer']. *)
Definition is_timer (e : option string) : bool :=
  match e with
  | Some s => String.eqb s "timer"
  | None => false
  end.

(** [children[i]] for a number [i]. *)
Definition child_at (i : Z) (l : list Child) : option Child :=
  if (i <? 0)%Z then None else nth_error l (Z.to_nat i).

(** [removeEvent(..., onTransitionEnd)]: drop the listener [lid]. *)
Definition remove_listener (lid : nat) (l : list Callback) : list Callback :=
  filter (fun cb => match cb with
                    | CbTransitionEnd lid' _ _ => negb (Nat.eqb lid' lid)
                    | _ => true
                    end) l.

(** The call of a completion callback. For the [onTransitionEnd] closure:
    remove its listener, fire "moved", clear the moving flag and call the
    callback it captured. *)
Fixpoint invoke (cb : Callback) (c : Carousel) : Carousel :=
  match cb with
  | CbUser id => observe (Called id) c
  | CbNoop => c
  | CbTransitionEnd lid to k =>
      let c := set_listeners (remove_listener lid (listeners c))
                 (next_listener c) c in
      let c := observe (Moved to) c in
      let c := set_moving false c in
      invoke k c
  end.

(** [callback && callback()]. *)
Definition invoke_opt (cb : option Callback) (c : Carousel) : Carousel :=
  match cb with
  | Some f => invoke f c
  | None => c
  end.

(** [thisSlide] as [move] computes it: the candidate index, clamped, and
    the loop override. *)
Definition target_index (c : Carousel) (direction : Z) (opts : MoveOpts) : Z :=
  let m := model c in
  let thisSlide := (current_slide m + direction)%Z in
  let thisSlide := if (thisSlide <? 0)%Z then 0%Z else thisSlide in
  let thisSlide :=
    if (thisSlide >? slides m - 1)%Z then (slides m - 1)%Z else thisSlide in
  if loop (options c) && (direction =? 1)%Z && is_timer (event opts)
     && (current_slide m =? slides m - 1)%Z
  then 0%Z else thisSlide.

(** The target of single-flex mode: the left edge of the child, moved by
    the alignment; [None] when the child does not exist. *)
Definition flex_target (c : Carousel) (thisSlide : Z) : option Q :=
  match child_at thisSlide (children c) with
  | Some thisSlideChild =>
      let target := offsetLeft thisSlideChild in
      let alignmentOffset :=
        stage_size (model c) - width thisSlideChild in
      Some (match slide_alignment (options c) with
            | AlignRight => target - alignmentOffset
            | AlignCenter => target - alignmentOffset / 2
            | AlignLeft => target
            end)
  | None => None
  end.

(** The target of the other modes. *)
Definition fixed_target (c : Carousel) (thisSlide : Z) : Q :=
  let m := model c in
  inject_Z thisSlide * stage_size m
  - (slide_offset_left m + slide_offset_right m) * inject_Z thisSlide
  - slide_offset_left m.

(** The target before the ends alignment is applied. *)
Definition raw_target (c : Carousel) (thisSlide : Z) : option Q :=
  if is_null (slide_size (options c))
     && is_single_flex (slide_mode (options c))
  then flex_target c thisSlide
  else Some (fixed_target c thisSlide).

(** Pin the target to the ends in sticky mode. *)
Definition sticky_clamp (c : Carousel) (target : Q) : Q :=
  if is_sticky (slide_ends_alignment (options c)) then
    let m := model c in
    let target := if Qlt_bool target 0 then 0 else target in
    if Qlt_bool (total_size m - stage_size m) target
    then total_size m - stage_size m else target
  else target.

(** The target pixel offset that [move] commits for [thisSlide]. *)
Definition move_target (c : Carousel) (thisSlide : Z) : option Q :=
  match raw_target c thisSlide with
  | Some target => Some (sticky_clamp c target)
  | None => None
  end.

(** The value of [data-position]. *)
Definition position_of (c : Carousel) (target : Q) : Position :=
  if Qeq_bool target 0 then PosStart
  else if Qeq_bool target (total_size (model c) - stage_size (model c))
       then PosEnd else PosMiddle.

(** [move(direction, opts, callback)] up to the point where it hands the
    rest to [delay(10)]. *)
Definition move (direction : Z) (opts : MoveOpts) (callback : option Callback)
    (c : Carousel) : Carousel :=
  if _moving c then invoke_opt callback c
  else
    let c := set_moving true c in
    let thisSlide := target_index c direction opts in
    match move_target c thisSlide with
    | None =>
        let c := set_moving false c in
        invoke_opt callback c
    | Some target =>
        let c := set_model (set_current_slide thisSlide (model c)) c in
        let c := set_data thisSlide (position_of c target) c in
        let c :=
          match nav c with
          | Some n =>
              set_nav (Some (Nav.setSelected (Some (current_slide (model c)))
                               n)) c
          | None => c
          end in
        let callback := match callback with Some f => f | None => CbNoop end in
        set_timers
          (timers c ++ [mkDelayed direction opts callback thisSlide target]) c
    end.

(** The function that [move] delays: animate to the target, move on when
    a sticky single slide did not move, or finish at once. *)
Definition run_delayed (d : Delayed) (c : Carousel) : Carousel :=
  let o := options c in
  let thisSlide := d_thisSlide d in
  let target := d_target d in
  let onTransitionEnd :=
    CbTransitionEnd (next_listener c) thisSlide (d_callback d) in
  let c := set_listeners (listeners c) (S (next_listener c)) c in
  if negb (Qeq_bool (getCurrentOffset true c) (- target)) then
    let c := if has_transitionend o
             then set_listeners (listeners c ++ [onTransitionEnd])
                    (next_listener c) c
             else c in
    let c := _move (- target) true c in
    if negb (has_transitionend o) then invoke onTransitionEnd c else c
  else if is_sticky (slide_ends_alignment o)
          && contains_single (slide_mode o)
          && negb (d_direction d =? 0)%Z
          && (thisSlide >? 0)%Z
          && (thisSlide <? slides (model c) - 1)%Z
  then
    let c := set_moving false c in
    move (if (d_direction d >? 0)%Z then 1%Z else (-1)%Z) (d_opts d)
      (Some onTransitionEnd) c
  else invoke onTransitionEnd c.

(** [moveToIndex], [next], [previous], [fix]. *)
Definition moveToIndex (index : Z) (opts : MoveOpts)
    (callback : option Callback) (c : Carousel) : Carousel :=
  move (index - current_slide (model c))%Z opts callback c.

Definition next (c : Carousel) : Carousel := move 1%Z no_opts None c.

Definition previous (c : Carousel) : Carousel := move (-1)%Z no_opts None c.

Definition fix_ (c : Carousel) : Carousel := move 0%Z no_opts None (calculate c).

(** ** The host *)

(** What can happen to an instance: a call of [move], the expiry of the
    oldest pending delay, the [transitionend] event of the first child. *)
Inductive Action :=
| CallMove (direction : Z) (opts : MoveOpts) (callback : option Callback)
| DelayExpires
| TransitionEnds.

Definition step (a : Action) (c : Carousel) : Carousel :=
  match a with
  | CallMove direction opts callback => move direction opts callback c
  | DelayExpires =>
      match timers c with
      | [] => c
      | d :: rest => run_delayed d (set_timers rest c)
      end
  | TransitionEnds =>
      fold_left (fun acc l => invoke l acc) (listeners c) c
  end.

Definition run (l : list Action) (c : Carousel) : Carousel :=
  fold_left (fun acc a => step a acc) l c.

(** The instance as the constructor leaves it, for an element with the
    given measures; [calculate] runs before the first [move]. *)
Definition initialize (o : Options) (size scrollSize : Q)
    (children : list Child) (with_nav : bool) : Carousel :=
  mkCarousel o size scrollSize children None 0%Z PosStart
    (mkModel 0 0 0 0 0%Z 0%Z) false 0
    (if with_nav then Some (Nav.initialize None) else None) [] [] O [].

(** The instance once the delayed [calculate()] of the constructor ran. *)
Definition attached (o : Options) (size scrollSize : Q)
    (children : list Child) (with_nav : bool) : Carousel :=
  calculate (initialize o size scrollSize children with_nav).

(** Let the host run until nothing is pending: expire the delays, then
    deliver [transitionend]. *)
Fixpoint settle (fuel : nat) (c : Carousel) : Carousel :=
  match fuel with
  | O => c
  | S f =>
      match timers c, listeners c with
      | _ :: _, _ => settle f (step DelayExpires c)
      | [], _ :: _ => settle f (step TransitionEnds c)
      | [], [] => c
      end
  end.

(** Nothing is pending. *)
Definition quiescent (c : Carousel) : Prop :=
  timers c = [] /\ listeners c = [].

(** ** Touch *)

(** The variables [start], [delta] and [isScrolling] of [onTouchStart],
    which its [onTouchMove] closure reads and writes. *)
Record Gesture := mkGesture {
  start_scroll : Q;
  start_x : Q;
  start_y : Q;
  resistanceTargetLeft : option Q;
  resistanceTargetRight : option Q;
  delta : option (Q * Q);
  isScrolling : option bool
}.

(** A touch event: the number of touches, [scale] and the page position
    of the first touch. *)
Record TouchEvent := mkTouch {
  touches : nat;
  scale : option Q;
  pageX : Q;
  pageY : Q
}.

(** The variables as [onTouchStart] initialises them; [scroll] is
    [-getComputedOffset()]. *)
Definition touch_start (scroll x y : Q) : Gesture :=
  mkGesture scroll x y None None None None.

(** The ends past which a drag meets resistance. *)
Definition left_end (c : Carousel) : Q :=
  0 - (if is_sticky (slide_ends_alignment (options c)) then 0
       else slide_offset_left (model c)).

Definition right_end (c : Carousel) : Q :=
  total_size (model c) - stage_size (model c)
  + (if is_sticky (slide_ends_alignment (options c)) then 0
     else slide_offset_right (model c)).

(** The resistance block of [onTouchMove]: the new anchors and the target
    handed to [_move]. *)
Definition resistance (c : Carousel) (g : Gesture) (dx : Q) : Gesture * Q :=
  let target := start_scroll g - dx in
  if Qlt_bool target (left_end c) then
    let anchor := match resistanceTargetLeft g with
                  | None => Math_abs dx
                  | Some a => a
                  end in
    (mkGesture (start_scroll g) (start_x g) (start_y g) (Some anchor)
       (resistanceTargetRight g) (delta g) (isScrolling g),
     target + (Math_abs dx - anchor) / 1.25)
  else if Qlt_bool (right_end c) target then
    let anchor := match resistanceTargetRight g with
                  | None => Math_abs dx
                  | Some a => a
                  end in
    (mkGesture (start_scroll g) (start_x g) (start_y g)
       (resistanceTargetLeft g) (Some anchor) (delta g) (isScrolling g),
     target - (Math_abs dx - anchor) / 1.25)
  else
    (mkGesture (start_scroll g) (start_x g) (start_y g) None None
       (delta g) (isScrolling g),
     target).

(** [onTouchMove(e)]. *)
Definition onTouchMove (e : TouchEvent) (g : Gesture) (c : Carousel)
  : Gesture * Carousel :=
  if (1 <? touches e)%nat
     || match scale e with
        | Some s => negb (Qeq_bool s 0) && negb (Qeq_bool s 1)
        | None => false
        end
  then (g, c)
  else
    let dx := pageX e - start_x g in
    let dy := pageY e - start_y g in
    let g := mkGesture (start_scroll g) (start_x g) (start_y g)
               (resistanceTargetLeft g) (resistanceTargetRight g)
               (Some (dx, dy)) (isScrolling g) in
    if Qlt_bool 3 (Math_abs dx) || Qlt_bool 3 (Math_abs dy) then
      let g :=
        match isScrolling g with
        | None =>
            mkGesture (start_scroll g) (start_x g) (start_y g)
              (resistanceTargetLeft g) (resistanceTargetRight g) (delta g)
              (Some (Qlt_bool (Math_abs dx) (Math_abs dy)))
        | Some _ => g
        end in
      match isScrolling g with
      | Some false =>
          let '(g, target) := resistance c g dx in
          (g, _move (- target) false c)
      | _ => (g, c)
      end
    else (g, c).


(** A touch event with a single touch at [(x, y)]. *)
Definition single_touch (x y : Q) : TouchEvent := mkTouch 1 None x y.

(** ** Instances used in examples *)

(** Children of the given widths laid out side by side from [left]. *)
Fixpoint lay_out (left : Q) (widths : list Q) : list Child :=
  match widths with
  | [] => []
  | w :: rest => mkChild w left :: lay_out (left + w) rest
  end.

Definition default_options : Options :=
  mkOptions true SizeNull AlignCenter Sticky Multiple true.

(** Three slides of 300px in a stage of 300px: total size 900. *)
Definition three_slides : Carousel :=
  attached default_options 300 900 (lay_out 0 [300; 300; 300]) true.

(** Four children of 100px in a stage of 250px, multiple mode, left
    alignment, sticky ends. *)
Definition four_children : Carousel :=
  attached (mkOptions true SizeNull AlignLeft Sticky Multiple true)
    250 400 (lay_out 0 [100; 100; 100; 100]) true.

(** Five children of 100px, each one a slide, in a stage of 400px: the
    sticky targets of the first two slides are both 0. *)
Definition five_single : Carousel :=
  attached (mkOptions true SizeNull AlignCenter Sticky Single true)
    400 500 (lay_out 0 [100; 100; 100; 100; 100]) true.

(** [three_slides] after the moves that bring it to rest on slide [i]. *)
Definition three_slides_at (i : Z) : Carousel :=
  settle 4 (moveToIndex i no_opts None three_slides).

(** ** Vocabulary of the properties *)

(** The four conditions of the loop override. *)
Definition wraps (c : Carousel) (direction : Z) (opts : MoveOpts) : Prop :=
  loop (options c) = true
  /\ direction = 1%Z
  /\ event opts = Some "timer"%string
  /\ current_slide (model c) = (slides (model c) - 1)%Z.

(** Two instances show the same geometry: options, children, both
    offsets and the layout part of the model. *)
Definition same_geometry (c c' : Carousel) : Prop :=
  options c' = options c
  /\ children c' = children c
  /\ style_offset c' = style_offset c
  /\ currentOffset c' = currentOffset c
  /\ slides (model c') = slides (model c)
  /\ stage_size (model c') = stage_size (model c)
  /\ total_size (model c') = total_size (model c)
  /\ slide_offset_left (model c') = slide_offset_left (model c)
  /\ slide_offset_right (model c') = slide_offset_right (model c).

(** A configured slide size is not negative. *)
Definition slide_size_wf (s : SlideSize) : Prop :=
  match s with
  | SizeNull => True
  | SizePx n => (0 <= n)%Z
  | SizePct p => (0 <= p)%Z
  end.

(** There is a slide and the current slide is one of the slides. *)
Definition in_range (c : Carousel) : Prop :=
  (1 <= slides (model c))%Z
  /\ (0 <= current_slide (model c) <= slides (model c) - 1)%Z.

(** The slide width of multiple mode in the words of the specification:
    walk the children accumulating widths, and take the sum of the whole
    children that fit without exceeding the stage width. *)
Fixpoint fit_sum (size acc : Q) (l : list Child) : Q :=
  match l with
  | [] => acc
  | ch :: rest =>
      if Qle_bool (acc + width ch) size
      then fit_sum size (acc + width ch) rest
      else acc
  end.

(** The sum of the widths of some children. *)
Definition sum_widths (l : list Child) : Q :=
  fold_right (fun ch acc => width ch + acc) 0 l.

(** How many calls of the caller's function [id] a callback makes when it
    is called. *)
Fixpoint owed_by (id : nat) (cb : Callback) : nat :=
  match cb with
  | CbUser i => if Nat.eqb i id then 1%nat else 0%nat
  | CbNoop => 0%nat
  | CbTransitionEnd _ _ k => owed_by id k
  end.

(** The calls owed by [callback && callback()]. *)
Definition owed_by_opt (id : nat) (cb : option Callback) : nat :=
  match cb with
  | Some f => owed_by id f
  | None => 0%nat
  end.

(** The calls of [id] that the pending delays and listeners still owe. *)
Definition pending (id : nat) (c : Carousel) : nat :=
  (list_sum (map (fun d => owed_by id (d_callback d)) (timers c))
   + list_sum (map (owed_by id) (listeners c)))%nat.

(** The calls of [id] made so far. *)
Definition called (id : nat) (c : Carousel) : nat :=
  length (filter (fun o => match o with
                           | Called i => Nat.eqb i id
                           | Moved _ => false
                           end) (trace c)).

(** The pending work of an instance driven by [move]: nothing, the delay
    of the move in flight, or its [transitionend] listener. *)
Definition consistent (c : Carousel) : Prop :=
  match timers c, listeners c with
  | [], [] => True
  | [d], [] => _moving c = true /\ current_slide (model c) = d_thisSlide d
  | [], [CbTransitionEnd _ _ _] => _moving c = true
  | _, _ => False
  end.

(** An action of the host or of a caller that does not pass the function
    [id] as a callback. *)
Definition other_action (id : nat) (a : Action) : Prop :=
  match a with
  | CallMove _ _ None => True
  | CallMove _ _ (Some (CbUser i)) => i <> id
  | CallMove _ _ (Some _) => False
  | DelayExpires | TransitionEnds => True
  end.

(** How many more times the delayed part of a move can issue a further
    move: the slides left in its direction when its slide is an inner
    one. *)
Definition remaining (d : Delayed) (c : Carousel) : nat :=
  let t := d_thisSlide d in
  let n := slides (model c) in
  if (0 <? t)%Z && (t <? n - 1)%Z
  then Z.to_nat (if (d_direction d >? 0)%Z then n - 1 - t else t)
  else 0%nat.

(** A bound on the host steps that the pending work still takes. *)
Definition backlog (c : Carousel) : nat :=
  match timers c, listeners c with
  | d :: _, _ => (remaining d c + 2)%nat
  | [], _ :: _ => 1%nat
  | [], [] => 0%nat
  end.

(** ** The rest of the widget *)

(** The width of a slide as [calculate] resolves it from the element. *)
Definition slide_width (c : Carousel) : Q :=
  resolve_size (element_size c)
    (raw_slide_size (options c) (element_size c) (element_scroll_size c)
       (children c)).

(** The element after the page changed it: new measures and children. *)
Definition remeasure (size scrollSize : Q) (kids : list Child)
    (c : Carousel) : Carousel :=
  mkCarousel (options c) size scrollSize kids
    (style_offset c) (data_slide_index c) (data_position c) (model c)
    (_moving c) (currentOffset c) (nav c) (timers c) (listeners c)
    (next_listener c) (trace c).

(** The function that [onWindowResize] delays by 50ms: back to offset 0
    and slide 0, then [calculate().move(0)]. *)
Definition onWindowResize (c : Carousel) : Carousel :=
  let c := _move 0 true c in
  let c := set_model (set_current_slide 0 (model c)) c in
  move 0%Z no_opts None (calculate c).

(** [onNavChoose(e)]: move to the chosen index; [restart] is the function
    that starts the timer again. *)
Definition onNavChoose (index : Z) (restart : nat) (c : Carousel)
  : Carousel :=
  moveToIndex index no_opts (Some (CbUser restart)) c.

(** The options of the moves that [onTouchEnd] makes. *)
Definition touch_opts : MoveOpts :=
  mkOpts (Some "touch"%string) (Some "sine:out"%string).

(** [canMove] of [onTouchEnd]; [elapsed] is the time since the touch
    started. A gesture without a move event has no [delta.x]: its
    comparisons are false. *)
Definition canMove (elapsed : Q) (g : Gesture) (c : Carousel) : bool :=
  match isScrolling g, delta g with
  | Some false, Some (dx, _) =>
      (Qlt_bool elapsed 250 && Qlt_bool 20 (Math_abs dx))
      || Qlt_bool (stage_size (model c) / 2) (Math_abs dx)
  | _, _ => false
  end.

(** [onTouchEnd(e)]: move on, snap back, or leave the carousel alone. *)
Definition onTouchEnd (elapsed : Q) (restart : nat) (g : Gesture)
    (c : Carousel) : Carousel :=
  if canMove elapsed g c then
    match delta g with
    | Some (dx, _) =>
        move (if Qlt_bool dx 0 then 1%Z else (-1)%Z) touch_opts
          (Some (CbUser restart)) c
    | None => c
    end
  else
    match delta g with
    | Some (dx, _) =>
        if Qlt_bool 0 (Math_abs dx)
        then move 0%Z touch_opts (Some (CbUser restart)) c
        else c
    | None => c
    end.

(** A gesture: the move events between touch start and touch end. *)
Fixpoint drag (es : list TouchEvent) (g : Gesture) (c : Carousel)
  : Gesture * Carousel :=
  match es with
  | [] => (g, c)
  | e :: rest =>
      let '(g, c) := onTouchMove e g c in
      drag rest g c
  end.

(** A call of [move] by a caller: the callback, if any, is a function of
    the caller. *)
Definition caller_action (a : Action) : Prop :=
  match a with
  | CallMove _ _ (Some (CbUser _)) | CallMove _ _ None => True
  | CallMove _ _ (Some _) => False
  | DelayExpires | TransitionEnds => True
  end.

(** The moving flag is set exactly while the work of a move is pending,
    and that is one delay or one listener. *)
Definition in_flight (c : Carousel) : Prop :=
  match timers c, listeners c with
  | [], [] => _moving c = false
  | [_], [] => _moving c = true
  | [], [CbTransitionEnd _ _ _] => _moving c = true
  | _, _ => False
  end.

(** The nav shows the slides: one item per slide, and the item of the
    current slide is the selected one. *)
Definition nav_synced (c : Carousel) : Prop :=
  match nav c with
  | Some items =>
      Z.of_nat (length items) = slides (model c)
      /\ Nav.selected_indices items = [current_slide (model c)]
  | None => True
  end.

(** Nothing is in flight. *)
Definition at_rest (c : Carousel) : Prop :=
  timers c = [] /\ listeners c = [] /\ _moving c = false.

(** The options of the call that the timer of [start] makes. *)
Definition timer_opts : MoveOpts := mkOpts (Some "timer"%string) None.

(** A tick of the timer of [start], [move(1, { event:'timer' })], and the
    host steps that complete it. *)
Definition timer_tick (fuel : nat) (c : Carousel) : Carousel :=
  settle fuel (move 1%Z timer_opts None c).

(** * Properties *)

(** ** Comparisons *)

Lemma Qlt_bool_true (a b : Q) : Qlt_bool a b = true <-> a < b.
Proof.
  unfold Qlt_bool. rewrite negb_true_iff.
  split; intro H.
  - destruct (Qlt_le_dec a b) as [Hl | Hl]; [exact Hl |].
    apply Qle_bool_iff in Hl. congruence.
  - destruct (Qle_bool b a) eqn:E; [| reflexivity].
    apply Qle_bool_iff in E. lra.
Qed.

Lemma Qlt_bool_false (a b : Q) : Qlt_bool a b = false <-> b <= a.
Proof.
  unfold Qlt_bool. rewrite negb_false_iff. apply Qle_bool_iff.
Qed.


(** ** Carousel.Nav: the selected marker *)

Module NavFacts.
Import Nav.

Lemma removeClass_length (items : t) :
  length (removeClass items) = length items.
Proof. unfold removeClass. apply length_map. Qed.

Lemma selected_from_removeClass (items : t) (i : Z) :
  selected_from i (removeClass items) = [].
Proof.
  revert i. induction items as [| it rest IH]; intro i; simpl.
  - reflexivity.
  - apply IH.
Qed.

Lemma selected_from_addClassAt (items : t) :
  forall (j : nat) (i : Z),
    (j < length items)%nat ->
    selected_from i (addClassAt j (removeClass items))
    = [(i + Z.of_nat j)%Z].
Proof.
  induction items as [| it rest IH]; intros j i Hj; simpl in Hj.
  - lia.
  - destruct j as [| j]; simpl.
    + rewrite selected_from_removeClass. f_equal. lia.
    + rewrite IH by lia. f_equal. lia.
Qed.

(** [setSelected] leaves exactly the item [index || 0] selected when it
    exists and nothing otherwise. *)
Lemma selected_setSelected (index : option Z) (items : t) :
  selected_indices (setSelected index items)
  = let i := match index with Some i => i | None => 0%Z end in
    if has_child i items then [i] else [].
Proof.
  unfold setSelected, selected_indices, has_child.
  rewrite removeClass_length.
  destruct index as [i |]; cbv zeta.
  - destruct ((0 <=? i)%Z && (i <? Z.of_nat (length items))%Z) eqn:E.
    + apply andb_true_iff in E. destruct E as [E1 E2].
      apply Z.leb_le in E1. apply Z.ltb_lt in E2.
      rewrite selected_from_addClassAt by lia. f_equal. lia.
    + apply selected_from_removeClass.
  - destruct ((0 <=? 0)%Z && (0 <? Z.of_nat (length items))%Z) eqn:E.
    + apply andb_true_iff in E. destruct E as [E1 E2].
      apply Z.ltb_lt in E2.
      rewrite selected_from_addClassAt by lia. reflexivity.
    + apply selected_from_removeClass.
Qed.

Lemma buttons_length (fuel : nat) (i : Z) : length (buttons fuel i) = fuel.
Proof.
  revert i. induction fuel as [| f IH]; intro i; simpl; [| rewrite IH];
    reflexivity.
Qed.

Lemma selected_update (n : Z) (items : t) :
  selected_indices (update n items) = if (0 <? n)%Z then [0%Z] else [].
Proof.
  unfold update. rewrite selected_setSelected. cbv zeta.
  unfold has_child. rewrite buttons_length.
  destruct (0 <? n)%Z eqn:E.
  - apply Z.ltb_lt in E.
    replace (0 <? Z.of_nat (Z.to_nat n))%Z with true; [reflexivity |].
    symmetry. apply Z.ltb_lt. lia.
  - apply Z.ltb_ge in E.
    replace (0 <? Z.of_nat (Z.to_nat n))%Z with false; [reflexivity |].
    symmetry. apply Z.ltb_ge. lia.
Qed.

Lemma selected_call_le (c : Call) (items : t) :
  (length (selected_indices (call c items)) <= 1)%nat.
Proof.
  destruct c as [n | index]; simpl.
  - rewrite selected_update. destruct (0 <? n)%Z; simpl; lia.
  - rewrite selected_setSelected. cbv zeta.
    destruct (has_child _ items); simpl; lia.
Qed.

Lemma selected_initialize_le (n : option Z) :
  (length (selected_indices (initialize n)) <= 1)%nat.
Proof.
  unfold initialize. rewrite selected_setSelected. cbv zeta.
  destruct (has_child _ _); simpl; lia.
Qed.

Lemma selected_run_le (cs : list Call) :
  forall items : t,
    (length (selected_indices items) <= 1)%nat ->
    (length (selected_indices (run cs items)) <= 1)%nat.
Proof.
  unfold run.
  induction cs as [| c cs IH]; intros items H; simpl.
  - exact H.
  - apply IH. apply selected_call_le.
Qed.

(** C10. After any sequence of [update] and [setSelected] calls on a nav
    at most one item carries the selected marker; [setSelected(i)] with
    [i] outside [0, item-count - 1] leaves no item selected; [update(n)]
    resets the selection to item 0 (the only item that can be selected
    after it, and selected as soon as there is an item). *)
Theorem nav_selection (n0 : option Z) (cs : list Call) :
  (length (selected_indices (run cs (initialize n0))) <= 1)%nat
  /\ (forall (i : Z) (items : t),
         (i < 0 \/ Z.of_nat (length items) - 1 < i)%Z ->
         selected_indices (setSelected (Some i) items) = [])
  /\ (forall (n : Z) (items : t),
         selected_indices (update n items)
         = if (0 <? n)%Z then [0%Z] else []).
Proof.
  split; [| split].
  - apply selected_run_le, selected_initialize_le.
  - intros i items Hi. rewrite selected_setSelected. cbv zeta.
    unfold has_child.
    destruct ((0 <=? i)%Z && (i <? Z.of_nat (length items))%Z) eqn:E;
      [| reflexivity].
    apply andb_true_iff in E. destruct E as [E1 E2].
    apply Z.leb_le in E1. apply Z.ltb_lt in E2. lia.
  - intros n items. apply selected_update.
Qed.

End NavFacts.

(** The nav of the specification's example: five items, the fourth one
    selected. *)
Lemma nav_selection_witness :
  (length (Nav.selected_indices
             (Nav.run [Nav.Update 5; Nav.SetSelected (Some 3%Z)]
                (Nav.initialize None))) <= 1)%nat
  /\ Nav.selected_indices (Nav.setSelected (Some 7%Z) (Nav.update 5 [])) = []
  /\ Nav.selected_indices (Nav.update 5 []) = [0%Z].
Proof.
  destruct (NavFacts.nav_selection None
              [Nav.Update 5; Nav.SetSelected (Some 3%Z)]) as [H1 [H2 H3]].
  split; [exact H1 | split].
  - apply H2. right. simpl. lia.
  - apply (H3 5%Z []).
Defined.

Example nav_update_then_select :
  Nav.selected_indices (Nav.setSelected (Some 3%Z) (Nav.update 5 [])) = [3%Z].
Proof. reflexivity. Qed.

(** ** move: the paths that return at once *)

Lemma set_moving_same (c : Carousel) (b : bool) :
  _moving c = b -> set_moving b c = c.
Proof. intro H. destruct c; simpl in *. subst. reflexivity. Qed.

Lemma set_moving_twice (c : Carousel) (a b : bool) :
  set_moving b (set_moving a c) = set_moving b c.
Proof. reflexivity. Qed.

(** C5. A [move] that finds the moving flag set calls its callback at
    once and returns; nothing of the instance changes but the record of
    that call: the current slide, the layout model, both offsets and the
    pending work of the move in flight are the same. *)
Theorem move_reentrant (c : Carousel) (direction : Z) (opts : MoveOpts)
    (id : nat) :
  _moving c = true ->
  let c' := move direction opts (Some (CbUser id)) c in
  c' = observe (Called id) c
  /\ trace c' = trace c ++ [Called id]
  /\ model c' = model c
  /\ current_slide (model c') = current_slide (model c)
  /\ getCurrentOffset true c' = getCurrentOffset true c
  /\ getCurrentOffset false c' = getCurrentOffset false c
  /\ _moving c' = true
  /\ timers c' = timers c
  /\ listeners c' = listeners c
  /\ move direction opts None c = c.
Proof.
  intros Hm c'. subst c'. unfold move. rewrite Hm. simpl.
  repeat split; try reflexivity. exact Hm.
Qed.

(** A second [next()] while the first one is in flight: the callback is
    called, the current slide stays the target of the first call. *)
Lemma move_reentrant_witness :
  let c := move 1 no_opts None three_slides in
  let c' := move 1 no_opts (Some (CbUser 7)) c in
  _moving c = true
  /\ trace c' = trace c ++ [Called 7%nat]
  /\ current_slide (model c') = 1%Z
  /\ model c' = model c
  /\ getCurrentOffset true c' = getCurrentOffset true c.
Proof.
  intros c c'.
  assert (Hm : _moving c = true) by reflexivity.
  destruct (move_reentrant c 1 no_opts 7 Hm)
    as (_ & Ht & Hmod & Hcur & Hraw & _).
  split; [exact Hm |].
  split; [exact Ht |].
  split; [subst c'; rewrite Hcur; reflexivity |].
  split; [exact Hmod | exact Hraw].
Defined.

Lemma target_index_set_moving (c : Carousel) (b : bool) (direction : Z)
    (opts : MoveOpts) :
  target_index (set_moving b c) direction opts = target_index c direction opts.
Proof. reflexivity. Qed.

Lemma move_target_set_moving (c : Carousel) (b : bool) (i : Z) :
  move_target (set_moving b c) i = move_target c i.
Proof. reflexivity. Qed.

(** [move] on an instance that is not moving, by cases on the target. *)
Lemma move_not_moving (c : Carousel) (direction : Z) (opts : MoveOpts)
    (callback : option Callback) :
  _moving c = false ->
  move direction opts callback c
  = match move_target c (target_index c direction opts) with
    | None => invoke_opt callback c
    | Some target =>
        let thisSlide := target_index c direction opts in
        let c := set_moving true c in
        let c := set_model (set_current_slide thisSlide (model c)) c in
        let c := set_data thisSlide (position_of c target) c in
        let c :=
          match nav c with
          | Some n =>
              set_nav (Some (Nav.setSelected (Some (current_slide (model c)))
                               n)) c
          | None => c
          end in
        let callback := match callback with Some f => f | None => CbNoop end in
        set_timers
          (timers c ++ [mkDelayed direction opts callback thisSlide target]) c
    end.
Proof.
  intro Hm. unfold move. rewrite Hm.
  rewrite target_index_set_moving, move_target_set_moving.
  destruct (move_target c (target_index c direction opts)); [reflexivity |].
  rewrite set_moving_twice, (set_moving_same c false Hm). reflexivity.
Qed.

(** C9. In single-flex mode a [move] whose target slide has no child
    clears the moving flag, calls the callback and returns; the current
    slide and both offsets are the same as before, and nothing is left
    pending. [move] is a total function: it has no error outcome. *)
Theorem move_flex_abort (c : Carousel) (direction : Z) (opts : MoveOpts)
    (id : nat) :
  _moving c = false ->
  slide_size (options c) = SizeNull ->
  slide_mode (options c) = SingleFlex ->
  child_at (target_index c direction opts) (children c) = None ->
  let c' := move direction opts (Some (CbUser id)) c in
  c' = observe (Called id) c
  /\ _moving c' = false
  /\ trace c' = trace c ++ [Called id]
  /\ current_slide (model c') = current_slide (model c)
  /\ getCurrentOffset true c' = getCurrentOffset true c
  /\ getCurrentOffset false c' = getCurrentOffset false c
  /\ timers c' = timers c
  /\ listeners c' = listeners c.
Proof.
  intros Hm Hs Hf Hc c'. subst c'.
  rewrite (move_not_moving c direction opts _ Hm).
  unfold move_target, raw_target, flex_target.
  rewrite Hs, Hf, Hc. simpl.
  repeat split; try reflexivity. exact Hm.
Qed.

(** A single-flex carousel without children: [next()] has no child to go
    to. *)
Lemma move_flex_abort_witness :
  let c := attached (mkOptions true SizeNull AlignCenter Sticky SingleFlex
                       true) 300 300 [] true in
  let c' := move 1 no_opts (Some (CbUser 1)) c in
  _moving c' = false
  /\ trace c' = trace c ++ [Called 1%nat]
  /\ current_slide (model c') = current_slide (model c).
Proof.
  intros c c'.
  destruct (move_flex_abort c 1 no_opts 1)
    as (_ & Hm & Ht & Hcur & _); try reflexivity.
  split; [exact Hm | split; [exact Ht | exact Hcur]].
Defined.

(** ** move: the path that commits *)

(** What [move] leaves behind when it commits a target. *)
Lemma move_commits (c : Carousel) (direction : Z) (opts : MoveOpts)
    (callback : option Callback) (target : Q) :
  _moving c = false ->
  move_target c (target_index c direction opts) = Some target ->
  let c' := move direction opts callback c in
  current_slide (model c') = target_index c direction opts
  /\ slides (model c') = slides (model c)
  /\ stage_size (model c') = stage_size (model c)
  /\ total_size (model c') = total_size (model c)
  /\ timers c'
     = timers c
       ++ [mkDelayed direction opts
             (match callback with Some f => f | None => CbNoop end)
             (target_index c direction opts) target]
  /\ _moving c' = true
  /\ listeners c' = listeners c
  /\ next_listener c' = next_listener c
  /\ trace c' = trace c
  /\ options c' = options c
  /\ children c' = children c
  /\ style_offset c' = style_offset c
  /\ currentOffset c' = currentOffset c.
Proof.
  intros Hm Ht c'. subst c'.
  rewrite (move_not_moving c direction opts callback Hm), Ht.
  cbv zeta. destruct (nav c) eqn:En; simpl; rewrite En; simpl;
    repeat split; reflexivity.
Qed.

Lemma is_timer_true (e : option string) :
  is_timer e = true <-> e = Some "timer"%string.
Proof.
  destruct e as [s |]; simpl.
  - rewrite String.eqb_eq. split; [intros -> | intros [= ->]]; reflexivity.
  - split; discriminate.
Qed.

Lemma target_index_cases (c : Carousel) (direction : Z) (opts : MoveOpts) :
  (wraps c direction opts /\ target_index c direction opts = 0%Z)
  \/ (~ wraps c direction opts
      /\ target_index c direction opts
         = Z.min (Z.max (current_slide (model c) + direction) 0)
             (slides (model c) - 1)).
Proof.
  unfold target_index, wraps.
  destruct (loop (options c)) eqn:El; simpl.
  2: { right. split; [intros [H _]; discriminate |].
       destruct (_ <? 0)%Z eqn:E1; destruct (_ >? _)%Z eqn:E2; lia. }
  destruct (direction =? 1)%Z eqn:Ed; simpl.
  2: { right. apply Z.eqb_neq in Ed. split; [intros (_ & H & _); lia |].
       destruct (_ <? 0)%Z eqn:E1; destruct (_ >? _)%Z eqn:E2; lia. }
  destruct (is_timer (event opts)) eqn:Et; simpl.
  2: { right. split.
       - intros (_ & _ & H & _). apply is_timer_true in H. congruence.
       - destruct (_ <? 0)%Z eqn:E1; destruct (_ >? _)%Z eqn:E2; lia. }
  destruct (current_slide (model c) =? slides (model c) - 1)%Z eqn:Ec.
  2: { right. apply Z.eqb_neq in Ec. split; [intros (_ & _ & _ & H); lia |].
       destruct (_ <? 0)%Z eqn:E1; destruct (_ >? _)%Z eqn:E2; lia. }
  left. apply Z.eqb_eq in Ed, Ec. apply is_timer_true in Et.
  repeat split; assumption.
Qed.

(** C3. The index that [move] commits is 0 when loop is enabled, the
    direction is +1, the event tag is "timer" and the current slide is the
    last one; in every other case it is the candidate index clamped to
    [0, slide-count - 1]. With loop enabled and three slides, [move(+1)]
    from index 2 gives index 0 with the event tag "timer" and index 2
    without an event tag. *)
Theorem move_loop_override :
  (forall (c : Carousel) (direction : Z) (opts : MoveOpts)
          (callback : option Callback),
      _moving c = false ->
      move_target c (target_index c direction opts) <> None ->
      let c' := move direction opts callback c in
      (wraps c direction opts -> current_slide (model c') = 0%Z)
      /\ (~ wraps c direction opts ->
          current_slide (model c')
          = Z.min (Z.max (current_slide (model c) + direction) 0)
              (slides (model c) - 1)))
  /\ (let c := three_slides_at 2 in
      loop (options c) = true /\ slides (model c) = 3%Z
      /\ current_slide (model c) = 2%Z
      /\ current_slide
           (model (settle 4 (move 1 (mkOpts (Some "timer"%string) None)
                               None c))) = 0%Z
      /\ current_slide (model (settle 4 (move 1 no_opts None c))) = 2%Z).
Proof.
  split.
  - intros c direction opts callback Hm Ht c'. subst c'.
    destruct (move_target c (target_index c direction opts)) as [t |] eqn:E;
      [| congruence].
    destruct (move_commits c direction opts callback t Hm E) as [Hc _].
    rewrite Hc.
    destruct (target_index_cases c direction opts) as [[Hw Hi] | [Hw Hi]];
      split; intro H; try contradiction; assumption.
  - vm_compute. repeat split; reflexivity.
Qed.

(** The timer on the last of three slides, and a manual [next()] there. *)
Lemma move_loop_override_witness :
  let c := three_slides_at 2 in
  current_slide
    (model (move 1 (mkOpts (Some "timer"%string) None) None c)) = 0%Z
  /\ current_slide (model (move 1 no_opts None c)) = 2%Z.
Proof.
  intro c. destruct move_loop_override as [H _]. split.
  - apply (H c 1%Z (mkOpts (Some "timer"%string) None) None).
    + reflexivity.
    + vm_compute. discriminate.
    + vm_compute. repeat split; reflexivity.
  - assert (Hn : ~ wraps c 1 no_opts).
    { intros (_ & _ & He & _). discriminate He. }
    rewrite (proj2 (H c 1%Z no_opts None eq_refl
                      ltac:(vm_compute; discriminate)) Hn).
    reflexivity.
Defined.

(** ** What the callbacks and [move] leave alone *)

Lemma same_geometry_refl (c : Carousel) : same_geometry c c.
Proof. repeat split. Qed.

Lemma same_geometry_trans (a b c : Carousel) :
  same_geometry a b -> same_geometry b c -> same_geometry a c.
Proof.
  unfold same_geometry. intros H1 H2.
  decompose [and] H1. decompose [and] H2.
  repeat split; congruence.
Qed.

Lemma same_geometry_offset (c c' : Carousel) (raw : bool) :
  same_geometry c c' -> getCurrentOffset raw c' = getCurrentOffset raw c.
Proof.
  intros (_ & Hc & Hs & Ho & _). unfold getCurrentOffset.
  rewrite Hc, Hs, Ho. reflexivity.
Qed.

Lemma invoke_frame (cb : Callback) :
  forall c : Carousel,
    same_geometry c (invoke cb c)
    /\ model (invoke cb c) = model c
    /\ timers (invoke cb c) = timers c
    /\ next_listener (invoke cb c) = next_listener c.
Proof.
  induction cb as [id | | lid to k IH]; intro c; simpl.
  - repeat split.
  - repeat split.
  - match goal with |- context [invoke k ?x] => destruct (IH x) as (G & M & T & N) end.
    split; [| rewrite M, T, N; repeat split].
    eapply same_geometry_trans; [| exact G]. repeat split.
Qed.

Lemma invoke_opt_frame (cb : option Callback) (c : Carousel) :
  same_geometry c (invoke_opt cb c)
  /\ model (invoke_opt cb c) = model c
  /\ timers (invoke_opt cb c) = timers c.
Proof.
  destruct cb as [f |]; simpl.
  - destruct (invoke_frame f c) as (G & M & T & _). auto.
  - repeat split.
Qed.

Lemma move_frame (direction : Z) (opts : MoveOpts)
    (callback : option Callback) (c : Carousel) :
  same_geometry c (move direction opts callback c).
Proof.
  unfold move. destruct (_moving c).
  - apply invoke_opt_frame.
  - destruct (move_target _ _) as [t |].
    + cbv zeta. destruct (nav _); repeat split.
    + eapply same_geometry_trans; [| apply invoke_opt_frame]. repeat split.
Qed.

(** ** The sticky clamp *)

Lemma sticky_clamp_range (c : Carousel) (target : Q) :
  is_sticky (slide_ends_alignment (options c)) = true ->
  stage_size (model c) <= total_size (model c) ->
  0 <= sticky_clamp c target
  /\ sticky_clamp c target <= total_size (model c) - stage_size (model c).
Proof.
  intros Hs Hle. unfold sticky_clamp. rewrite Hs. cbv zeta.
  set (hi := total_size (model c) - stage_size (model c)).
  assert (Hhi : 0 <= hi) by (subst hi; lra).
  destruct (Qlt_bool target 0) eqn:E1.
  - destruct (Qlt_bool hi 0) eqn:E2.
    + apply Qlt_bool_true in E2. lra.
    + lra.
  - apply Qlt_bool_false in E1.
    destruct (Qlt_bool hi target) eqn:E2.
    + lra.
    + apply Qlt_bool_false in E2. lra.
Qed.

(** After the delayed part of a move ran, the raw offset is the negated
    target. *)
Lemma run_delayed_offset (d : Delayed) (c : Carousel) :
  getCurrentOffset true (run_delayed d c) == - d_target d.
Proof.
  unfold run_delayed.
  set (c0 := set_listeners (listeners c) (S (next_listener c)) c).
  set (onTE := CbTransitionEnd (next_listener c) (d_thisSlide d) (d_callback d)).
  cbv zeta.
  destruct (Qeq_bool (getCurrentOffset true c0) (- d_target d)) eqn:E;
    cbn [negb].
  - apply Qeq_bool_iff in E.
    match goal with
    | |- context [if ?b then _ else _] => destruct b
    end.
    + rewrite (same_geometry_offset _ _ true (move_frame _ _ _ _)). exact E.
    + rewrite (same_geometry_offset _ _ true
                 (proj1 (invoke_frame onTE c0))). exact E.
  - assert (H : forall c1 : Carousel,
               getCurrentOffset true (_move (- d_target d) true c1)
               == - d_target d).
    { intro c1. unfold _move, getCurrentOffset.
      destruct (children c1) eqn:Ec; simpl; rewrite Ec.
      - reflexivity.
      - destruct (Qeq_bool (- d_target d) 0); reflexivity. }
    destruct (has_transitionend (options c)); cbn [negb].
    + apply H.
    + rewrite (same_geometry_offset _ _ true (proj1 (invoke_frame onTE _))).
      apply H.
Qed.

(** The three cases of the clamp when the stage is not wider than the
    content: below 0, between the ends, past the far end. *)
Lemma sticky_clamp_cases (c : Carousel) (target : Q) :
  is_sticky (slide_ends_alignment (options c)) = true ->
  stage_size (model c) <= total_size (model c) ->
  let hi := total_size (model c) - stage_size (model c) in
  (target < 0 -> sticky_clamp c target == 0)
  /\ (0 <= target -> target <= hi -> sticky_clamp c target == target)
  /\ (hi < target -> sticky_clamp c target == hi).
Proof.
  intros Hs Hle. unfold sticky_clamp. rewrite Hs. cbv zeta.
  set (hi := total_size (model c) - stage_size (model c)).
  assert (Hhi : 0 <= hi) by (subst hi; lra).
  destruct (Qlt_bool target 0) eqn:E1.
  - apply Qlt_bool_true in E1.
    destruct (Qlt_bool hi 0) eqn:E2.
    + apply Qlt_bool_true in E2. lra.
    + repeat split; intros; lra.
  - apply Qlt_bool_false in E1.
    destruct (Qlt_bool hi target) eqn:E2.
    + apply Qlt_bool_true in E2. repeat split; intros; lra.
    + apply Qlt_bool_false in E2. repeat split; intros; lra.
Qed.

(** Two children of 100px in a sticky element whose box (300px) is wider
    than its scroll width (200px): [move(0)] commits the target -100,
    which is below 0, and the children are moved to +100. *)
Lemma sticky_target_below_zero :
  let c := attached default_options 300 200 (lay_out 0 [100; 100]) true in
  let c1 := move 0 no_opts None c in
  is_sticky (slide_ends_alignment (options c)) = true
  /\ stage_size (model c) == 300
  /\ total_size (model c) == 200
  /\ exists d : Delayed,
       timers c1 = [d]
       /\ d_target d == - (100)
       /\ ~ 0 <= d_target d
       /\ getCurrentOffset true (step DelayExpires c1) == 100
       /\ ~ getCurrentOffset true (step DelayExpires c1) <= 0.
Proof.
  cbv zeta. split; [vm_compute; reflexivity |].
  split; [vm_compute; reflexivity |]. split; [vm_compute; reflexivity |].
  exists (hd (mkDelayed 0 no_opts CbNoop 0 0)
            (timers (move 0 no_opts None
                       (attached default_options 300 200
                          (lay_out 0 [100; 100]) true)))).
  vm_compute. repeat split; try discriminate; intro H; apply H; reflexivity.
Qed.

(** C4 (amended). With sticky ends and a total size that is not less
    than the stage size, the target that a [move] commits is the target
    of the slide clamped into [0, total-size - stage-size]: 0 when the
    slide's target is below 0, the slide's target itself when it lies in
    the interval, total-size - stage-size when it is past it. Once the
    delayed part of the move ran, the raw offset is the negated target
    and lies in [-(total-size - stage-size), 0]; for a stage of 300 and a
    total size of 900 that is [-600, 0]. *)
Theorem sticky_target_clamped (c : Carousel) (direction : Z)
    (opts : MoveOpts) (callback : option Callback) (d : Delayed) :
  is_sticky (slide_ends_alignment (options c)) = true ->
  stage_size (model c) <= total_size (model c) ->
  _moving c = false ->
  timers c = [] ->
  In d (timers (move direction opts callback c)) ->
  let hi := total_size (model c) - stage_size (model c) in
  let c' := step DelayExpires (move direction opts callback c) in
  d_thisSlide d = target_index c direction opts
  /\ (exists raw : Q,
         raw_target c (d_thisSlide d) = Some raw
         /\ (raw < 0 -> d_target d == 0)
         /\ (0 <= raw -> raw <= hi -> d_target d == raw)
         /\ (hi < raw -> d_target d == hi))
  /\ (0 <= d_target d /\ d_target d <= hi)
  /\ getCurrentOffset true c' == - d_target d
  /\ (- hi <= getCurrentOffset true c' /\ getCurrentOffset true c' <= 0).
Proof.
  intros Hs Hle Hm Ht Hin hi c'. subst hi c'.
  destruct (move_target c (target_index c direction opts)) as [t |] eqn:E.
  - destruct (move_commits c direction opts callback t Hm E)
      as (_ & _ & _ & _ & Htm & _).
    rewrite Htm, Ht in Hin. simpl in Hin.
    destruct Hin as [Hd | []]. subst d. cbn [d_thisSlide d_target].
    unfold move_target in E.
    destruct (raw_target c (target_index c direction opts)) as [r |] eqn:Er;
      [| discriminate].
    injection E as <-.
    destruct (sticky_clamp_cases c r Hs Hle) as (C1 & C2 & C3).
    destruct (sticky_clamp_range c r Hs Hle) as [R1 R2].
    split; [reflexivity |].
    split; [exists r; repeat split; assumption |].
    split; [split; assumption |].
    unfold step. rewrite Htm, Ht. cbn [app].
    match goal with
    | |- context [run_delayed ?d ?c] =>
        pose proof (run_delayed_offset d c) as Ho
    end.
    cbn [d_target] in Ho. rewrite Ho. split; [reflexivity | lra].
  - rewrite (move_not_moving c direction opts callback Hm), E in Hin.
    rewrite (proj2 (proj2 (invoke_opt_frame callback c))), Ht in Hin.
    destruct Hin.
Qed.

(** [next()] on the second of three slides of 300px in a stage of 300px,
    total size 900: the slide's target 600 lies in [0, 600] and is
    committed as it is, and the offset becomes -600. *)
Lemma sticky_target_clamped_witness :
  let c := three_slides_at 1 in
  let c1 := move 1 no_opts None c in
  stage_size (model c) == 300 /\ total_size (model c) == 900
  /\ (forall d, In d (timers c1) ->
      d_target d == 600 /\ 0 <= d_target d /\ d_target d <= 600)
  /\ - (600) <= getCurrentOffset true (step DelayExpires c1)
  /\ getCurrentOffset true (step DelayExpires c1) <= 0.
Proof.
  intros c c1.
  split; [reflexivity | split; [reflexivity |]].
  assert (Hs : is_sticky (slide_ends_alignment (options c)) = true)
    by reflexivity.
  assert (Hle : stage_size (model c) <= total_size (model c))
    by (vm_compute; discriminate).
  assert (Hm : _moving c = false) by reflexivity.
  assert (Ht : timers c = []) by reflexivity.
  split.
  - intros d Hd.
    destruct (sticky_target_clamped c 1 no_opts None d Hs Hle Hm Ht Hd)
      as (Hi & (raw & Hraw & _ & Hin & _) & [H1 H2] & _).
    assert (Hr : raw == 600).
    { rewrite Hi in Hraw. vm_compute in Hraw. injection Hraw as <-.
      reflexivity. }
    split; [| split; [exact H1 |]].
    + rewrite <- Hr. apply Hin; rewrite Hr; vm_compute; discriminate.
    + eapply Qle_trans; [exact H2 |]. vm_compute. discriminate.
  - assert (Hd : In (hd (mkDelayed 0 no_opts CbNoop 0 0) (timers c1))
                    (timers c1))
      by (vm_compute; left; reflexivity).
    destruct (sticky_target_clamped c 1 no_opts None _ Hs Hle Hm Ht Hd)
      as (_ & _ & _ & _ & [H1 H2]).
    split; [| exact H2].
    eapply Qle_trans; [| exact H1]. vm_compute. discriminate.
Defined.

(** ** move(0) at rest *)

Lemma target_index_zero (c : Carousel) (opts : MoveOpts) :
  (0 <= current_slide (model c) <= slides (model c) - 1)%Z ->
  target_index c 0 opts = current_slide (model c).
Proof.
  intro H. destruct (target_index_cases c 0 opts) as [[Hw _] | [_ Hi]].
  - destruct Hw as (_ & Hd & _). discriminate.
  - rewrite Hi. lia.
Qed.

(** The delayed part of a move of direction 0 whose target is the raw
    offset: it only finishes. *)
Lemma run_delayed_noop (d : Delayed) (c : Carousel) :
  getCurrentOffset true c == - d_target d ->
  d_direction d = 0%Z ->
  run_delayed d c
  = invoke (CbTransitionEnd (next_listener c) (d_thisSlide d) (d_callback d))
      (set_listeners (listeners c) (S (next_listener c)) c).
Proof.
  intros Ho Hd. unfold run_delayed. cbv zeta.
  assert (E : Qeq_bool
                (getCurrentOffset true
                   (set_listeners (listeners c) (S (next_listener c)) c))
                (- d_target d) = true).
  { apply Qeq_bool_iff. exact Ho. }
  rewrite E, Hd. cbn [negb Z.eqb].
  rewrite !andb_false_r. cbn [andb]. reflexivity.
Qed.

(** C7. [move(0)] on an instance at rest -- not moving, nothing pending,
    the current slide in range and the raw offset equal to the negated
    target of the current slide -- fires "moved" with the current slide
    index, then calls the callback; the current slide and both offsets
    are what they were. *)
Theorem move_zero_at_rest (c : Carousel) (opts : MoveOpts) (id : nat)
    (target : Q) :
  _moving c = false ->
  timers c = [] ->
  (0 <= current_slide (model c) <= slides (model c) - 1)%Z ->
  move_target c (current_slide (model c)) = Some target ->
  getCurrentOffset true c == - target ->
  let c' := step DelayExpires (move 0 opts (Some (CbUser id)) c) in
  let c'' := step DelayExpires (move 0 opts None c) in
  trace c' = trace c ++ [Moved (current_slide (model c)); Called id]
  /\ trace c'' = trace c ++ [Moved (current_slide (model c))]
  /\ current_slide (model c') = current_slide (model c)
  /\ getCurrentOffset true c' = getCurrentOffset true c
  /\ style_offset c' = style_offset c
  /\ currentOffset c' = currentOffset c
  /\ _moving c' = false
  /\ timers c' = [].
Proof.
  intros Hm Ht Hr Htg Ho c' c''.
  pose proof (target_index_zero c opts Hr) as Hi.
  assert (Hstep : forall callback : option Callback,
             step DelayExpires (move 0 opts callback c)
             = invoke (CbTransitionEnd (next_listener c)
                         (current_slide (model c))
                         (match callback with Some f => f | None => CbNoop end))
                 (set_listeners (listeners c) (S (next_listener c))
                    (set_timers [] (move 0 opts callback c)))).
  { intro callback.
    rewrite <- Hi in Htg.
    destruct (move_commits c 0 opts callback target Hm Htg)
      as (_ & _ & _ & _ & Htm & _ & Hl & Hn & _ & _ & Hch & Hst & Hco).
    unfold step. rewrite Htm, Ht. cbn [app].
    rewrite run_delayed_noop.
    - cbn [d_thisSlide d_callback]. rewrite Hi. simpl. rewrite Hl, Hn.
      reflexivity.
    - cbn [d_target]. rewrite <- Ho. unfold getCurrentOffset. simpl.
      rewrite Hch, Hst, Hco. reflexivity.
    - reflexivity. }
  rewrite <- Hi in Htg.
  subst c' c''. rewrite !Hstep.
  destruct (move_commits c 0 opts (Some (CbUser id)) target Hm Htg)
    as (Hc1 & _ & _ & _ & _ & _ & _ & _ & Htr1 & _ & Hch1 & Hst1 & Hco1).
  destruct (move_commits c 0 opts None target Hm Htg)
    as (_ & _ & _ & _ & _ & _ & _ & _ & Htr2 & _).
  simpl. rewrite Htr1, Htr2, Hc1, Hch1, Hst1, Hco1, Hi.
  rewrite <- app_assoc.
  repeat split; reflexivity.
Qed.

(** The carousel of three slides at rest on the second one. *)
Lemma move_zero_at_rest_witness :
  let c := three_slides_at 1 in
  let c' := step DelayExpires (move 0 no_opts (Some (CbUser 5)) c) in
  trace c' = trace c ++ [Moved 1; Called 5%nat]
  /\ current_slide (model c') = 1%Z
  /\ getCurrentOffset true c' = getCurrentOffset true c.
Proof.
  intros c c'.
  assert (Htg : exists t, move_target c (current_slide (model c)) = Some t)
    by (eexists; reflexivity).
  destruct Htg as [t Htg].
  assert (Ho : getCurrentOffset true c == - t).
  { vm_compute in Htg. injection Htg as <-. reflexivity. }
  destruct (move_zero_at_rest c no_opts 5 t eq_refl eq_refl
              ltac:(vm_compute; split; discriminate) Htg Ho)
    as (H1 & _ & H2 & H3 & _).
  split; [exact H1 | split; [exact H2 | exact H3]].
Defined.

(** ** The slide count and the current slide *)

Lemma pack_loop_nonneg (size : Q) (rest : list Child) :
  forall (slideSize childSize : Q) (cur : Child),
    0 <= slideSize -> 0 <= childSize ->
    Forall (fun ch => 0 <= width ch) (cur :: rest) ->
    0 <= fst (pack_loop size slideSize childSize cur rest).
Proof.
  induction rest as [| next rest IH]; intros slideSize childSize cur Hs Hc Hw;
    simpl.
  - destruct (Qle_bool _ size); simpl; lra.
  - destruct (Qle_bool _ size); simpl; [| lra].
    inversion Hw as [| ? ? Hcur Hrest]; subst.
    apply IH; [lra | exact Hcur | exact Hrest].
Qed.

Lemma resolved_size_nonneg (o : Options) (size totalSize : Q)
    (children : list Child) :
  slide_size_wf (slide_size o) ->
  0 <= size ->
  Forall (fun ch => 0 <= width ch) children ->
  0 <= resolve_size size (raw_slide_size o size totalSize children).
Proof.
  intros Hwf Hsize Hw.
  assert (Hpct : forall p : Z, (0 <= p)%Z -> 0 <= size * (inject_Z p / 100)).
  { intros p Hp. apply Qmult_le_0_compat; [exact Hsize |].
    apply Qle_shift_div_l; [reflexivity |].
    rewrite Qmult_0_l. replace 0 with (inject_Z 0) by reflexivity.
    rewrite <- Zle_Qle. exact Hp. }
  unfold raw_slide_size.
  destruct (slide_size o) as [| n | p]; simpl in Hwf.
  - destruct children as [| first rest].
    + apply Hpct. lia.
    + assert (Hloop : 0 <= fst (pack_loop size 0 0 first rest))
        by (apply pack_loop_nonneg; [lra | lra | exact Hw]).
      destruct (slide_mode o).
      * destruct (pack_loop size 0 0 first rest) as [s b]; simpl in Hloop.
        destruct (negb b && Qlt_bool s totalSize);
          [apply Hpct; lia | exact Hloop].
      * simpl. inversion Hw; assumption.
      * destruct (pack_loop size 0 0 first rest) as [s b]; simpl in Hloop.
        destruct (negb b && Qlt_bool s totalSize);
          [apply Hpct; lia | exact Hloop].
  - destruct (n =? 0)%Z; simpl; [exact Hsize |].
    replace 0 with (inject_Z 0) by reflexivity.
    rewrite <- Zle_Qle. exact Hwf.
  - apply Hpct. exact Hwf.
Qed.

Lemma count_slides_positive (o : Options) (totalSize slideSize : Q)
    (children : list Child) :
  0 <= totalSize -> 0 <= slideSize ->
  (1 <= count_slides o totalSize slideSize children)%Z.
Proof.
  intros Ht Hs. unfold count_slides.
  destruct (Qeq_bool slideSize 0) eqn:E0; simpl; [lia |].
  apply Qeq_bool_neq in E0.
  assert (Hpos : 0 < slideSize) by lra.
  match goal with
  | |- context [(?n =? 0)%Z] =>
      assert (Hn : (0 <= n)%Z); [| destruct (n =? 0)%Z eqn:En;
                                   [lia | apply Z.eqb_neq in En; lia]]
  end.
  destruct (is_null (slide_size o) && contains_single (slide_mode o)).
  - lia.
  - unfold Math_ceil.
    change 0%Z with (Qceiling 0). apply Qceiling_resp_le.
    apply Qle_shift_div_l; [exact Hpos | lra].
Qed.

Lemma _move_model (to : Q) (b : bool) (c : Carousel) :
  model (_move to b c) = model c
  /\ options (_move to b c) = options c
  /\ children (_move to b c) = children c.
Proof.
  unfold _move. destruct (children c) eqn:E; destruct b; simpl;
    repeat split; auto.
Qed.

(** The model that [calculate] writes. *)
Lemma calculate_model (c : Carousel) :
  let size := element_size c in
  let totalSize := element_scroll_size c in
  let slideSize :=
    resolve_size size
      (raw_slide_size (options c) size totalSize (children c)) in
  slides (model (calculate c))
  = count_slides (options c) totalSize slideSize (children c)
  /\ current_slide (model (calculate c)) = current_slide (model c)
  /\ stage_size (model (calculate c)) = size
  /\ total_size (model (calculate c)) = totalSize
  /\ slide_offset_left (model (calculate c))
     = fst (slide_offsets (slide_alignment (options c)) size slideSize)
  /\ slide_offset_right (model (calculate c))
     = snd (slide_offsets (slide_alignment (options c)) size slideSize).
Proof.
  destruct c as [o es ess ch so dsi dp m mv co nv tm ls nl tr].
  unfold calculate, getTotalSize, _move.
  destruct ch as [| first rest];
    cbn -[raw_slide_size count_slides slide_offsets resolve_size];
    destruct (slide_offsets _ _ _) as [l r]; destruct nv;
    cbn -[raw_slide_size count_slides slide_offsets resolve_size];
    repeat split; reflexivity.
Qed.

Lemma target_index_range (c : Carousel) (direction : Z) (opts : MoveOpts) :
  (1 <= slides (model c))%Z ->
  (0 <= target_index c direction opts <= slides (model c) - 1)%Z.
Proof.
  intro H.
  destruct (target_index_cases c direction opts) as [[_ Hi] | [_ Hi]];
    rewrite Hi; lia.
Qed.

Lemma invoke_in_range (cb : Callback) (c : Carousel) :
  in_range c -> in_range (invoke cb c).
Proof.
  unfold in_range. destruct (invoke_frame cb c) as (_ & M & _).
  rewrite M. auto.
Qed.

Lemma move_in_range (direction : Z) (opts : MoveOpts)
    (callback : option Callback) (c : Carousel) :
  in_range c -> in_range (move direction opts callback c).
Proof.
  intro H. destruct (_moving c) eqn:Hm.
  - unfold move. rewrite Hm. destruct callback; simpl;
      [apply invoke_in_range |]; exact H.
  - destruct (move_target c (target_index c direction opts)) as [t |] eqn:E.
    + destruct (move_commits c direction opts callback t Hm E)
        as (Hc & Hs & _).
      unfold in_range. rewrite Hc, Hs.
      split; [apply H | apply target_index_range, H].
    + rewrite (move_not_moving c direction opts callback Hm), E.
      destruct callback; simpl; [apply invoke_in_range |]; exact H.
Qed.

Lemma run_delayed_in_range (d : Delayed) (c : Carousel) :
  in_range c -> in_range (run_delayed d c).
Proof.
  intro H. unfold run_delayed. cbv zeta.
  repeat match goal with
         | |- context [if ?b then _ else _] => destruct b
         end;
    repeat first
      [ apply invoke_in_range
      | apply move_in_range
      | exact H
      | match goal with
        | |- in_range (_move ?t ?b ?x) =>
            unfold in_range;
            rewrite (proj1 (_move_model t b x));
            fold (in_range x)
        end ].
Qed.

Lemma step_in_range (a : Action) (c : Carousel) :
  in_range c -> in_range (step a c).
Proof.
  intro H. destruct a as [direction opts callback | |]; simpl.
  - apply move_in_range, H.
  - destruct (timers c) as [| d rest]; [exact H |].
    apply run_delayed_in_range. exact H.
  - generalize dependent c.
    intro c. generalize (listeners c) as ls. intros ls. revert c.
    induction ls as [| l ls IH]; intros c H; simpl; [exact H |].
    apply IH, invoke_in_range, H.
Qed.

Lemma run_in_range (l : list Action) :
  forall c : Carousel, in_range c -> in_range (run l c).
Proof.
  unfold run. induction l as [| a l IH]; intros c H; simpl; [exact H |].
  apply IH, step_in_range, H.
Qed.

Lemma attached_in_range (o : Options) (size scrollSize : Q)
    (kids : list Child) (with_nav : bool) :
  slide_size_wf (slide_size o) ->
  0 <= size -> 0 <= scrollSize ->
  Forall (fun ch => 0 <= width ch) kids ->
  in_range (attached o size scrollSize kids with_nav).
Proof.
  intros Hwf Hsize Htot Hw. unfold attached, in_range.
  destruct (calculate_model (initialize o size scrollSize kids with_nav))
    as (Hs & Hc & _).
  rewrite Hs, Hc. cbn [initialize options element_size element_scroll_size
                         children model current_slide].
  pose proof (count_slides_positive o scrollSize
                (resolve_size size (raw_slide_size o size scrollSize kids))
                kids Htot
                (resolved_size_nonneg o size scrollSize kids Hwf Hsize Hw)).
  lia.
Qed.

(** C1. For a stage width, a total size and child widths that are not
    negative (and a configured slide size that is not negative), after any
    sequence of [move] calls -- any direction, any event tag, any
    callback -- interleaved in any way with the delays and transition
    ends that complete them, the slide count is at least 1 and the current
    slide lies in [0, slide-count - 1]; the index that a further [move]
    would commit, the candidate [current-slide + direction] after clamping
    and the loop override, lies in that range too. *)
Theorem slide_index_in_range (o : Options) (size scrollSize : Q)
    (children : list Child) (with_nav : bool) (l : list Action) :
  slide_size_wf (slide_size o) ->
  0 <= size -> 0 <= scrollSize ->
  Forall (fun ch => 0 <= width ch) children ->
  let c := run l (attached o size scrollSize children with_nav) in
  (1 <= slides (model c))%Z
  /\ (0 <= current_slide (model c) <= slides (model c) - 1)%Z
  /\ forall (direction : Z) (opts : MoveOpts),
       (0 <= target_index c direction opts <= slides (model c) - 1)%Z.
Proof.
  intros Hwf Hsize Htot Hw c.
  assert (H : in_range c).
  { subst c. apply run_in_range, attached_in_range; assumption. }
  destruct H as [H1 H2].
  split; [exact H1 | split; [exact H2 |]].
  intros direction opts. apply target_index_range, H1.
Qed.

(** Four children of 100px in a stage of 250px: two slides; three calls
    of [next()], each completed, end on the last slide. *)
Lemma slide_index_in_range_witness :
  let c :=
    run [CallMove 1 no_opts None; DelayExpires; TransitionEnds;
         CallMove 1 (mkOpts (Some "touch"%string) None) None; DelayExpires;
         TransitionEnds; CallMove (-5) no_opts None]
      (attached (mkOptions true SizeNull AlignLeft Sticky Multiple true)
         250 400 (lay_out 0 [100; 100; 100; 100]) true) in
  (1 <= slides (model c))%Z
  /\ (0 <= current_slide (model c) <= slides (model c) - 1)%Z.
Proof.
  intro c.
  destruct (slide_index_in_range
              (mkOptions true SizeNull AlignLeft Sticky Multiple true)
              250 400 (lay_out 0 [100; 100; 100; 100]) true
              [CallMove 1 no_opts None; DelayExpires; TransitionEnds;
               CallMove 1 (mkOpts (Some "touch"%string) None) None;
               DelayExpires; TransitionEnds; CallMove (-5) no_opts None])
    as (H1 & H2 & _).
  - exact I.
  - vm_compute. discriminate.
  - vm_compute. discriminate.
  - repeat constructor; vm_compute; discriminate.
  - split; [exact H1 | exact H2].
Defined.

(** ** The packing loop *)

(** The loop never exceeds the stage width. *)
Lemma pack_loop_le (size : Q) (rest : list Child) :
  forall (slideSize childSize : Q) (cur : Child),
    slideSize + childSize <= size ->
    fst (pack_loop size slideSize childSize cur rest) <= size.
Proof.
  induction rest as [| next rest IH]; intros slideSize childSize cur H; simpl.
  - destruct (Qle_bool _ size); simpl; exact H.
  - destruct (Qle_bool _ size) eqn:E; simpl; [| exact H].
    apply IH. apply Qle_bool_iff in E. exact E.
Qed.

(** When the loop stops before the last child, it stops at the first
    child that does not fit. *)
Lemma pack_loop_stopped (size : Q) (rest : list Child) :
  forall (slideSize childSize : Q) (cur : Child),
    snd (pack_loop size slideSize childSize cur rest) = true ->
    fst (pack_loop size slideSize childSize cur rest)
    = fit_sum size (slideSize + childSize) (cur :: rest).
Proof.
  induction rest as [| next rest IH]; intros slideSize childSize cur H;
    simpl in *.
  - destruct (Qle_bool _ size); simpl in H; discriminate.
  - destruct (Qle_bool (slideSize + childSize + width cur) size) eqn:E.
    + rewrite (IH _ _ _ H). simpl. reflexivity.
    + reflexivity.
Qed.

(** When the loop reaches the last child, it has summed all the children
    but that one. *)
Lemma pack_loop_exhausted (size : Q) (rest : list Child) :
  forall (slideSize childSize : Q) (cur : Child),
    snd (pack_loop size slideSize childSize cur rest) = false ->
    fst (pack_loop size slideSize childSize cur rest)
    == slideSize + childSize + sum_widths (removelast (cur :: rest)).
Proof.
  induction rest as [| next rest IH]; intros slideSize childSize cur H.
  - simpl. destruct (Qle_bool _ size); simpl; unfold sum_widths; simpl; lra.
  - simpl in H. cbn [pack_loop].
    destruct (Qle_bool (slideSize + childSize + width cur) size) eqn:E.
    + rewrite (IH _ _ _ H).
      change (removelast (cur :: next :: rest))
        with (cur :: removelast (next :: rest)).
      unfold sum_widths. cbn [fold_right]. lra.
    + simpl in H. discriminate.
Qed.

(** Two children of 100px in a stage of 250px: both fit, and the slide is
    neither their sum nor what the loop summed, but the whole stage. *)
Lemma packing_two_children :
  let o := mkOptions true SizeNull AlignLeft Sticky Multiple true in
  let kids := lay_out 0 [100; 100] in
  fit_sum 250 0 kids == 200
  /\ fst (pack_loop 250 0 0 (mkChild 100 0) [mkChild 100 100]) == 100
  /\ resolve_size 250 (raw_slide_size o 250 250 kids) == 250
  /\ ~ resolve_size 250 (raw_slide_size o 250 250 kids)
       == fit_sum 250 0 kids.
Proof.
  vm_compute. repeat split; discriminate.
Qed.

(** C2 (amended). In multiple mode with no configured slide size the
    packing loop sums whole children from the first one on, never counts
    the last child and never exceeds the stage width. When it stops
    before the last child, the slide's width is the sum of the whole
    children that fit without exceeding the stage width. When it reaches
    the last child it has summed all the children but that one, and the
    slide's width is the whole stage width if that sum is less than the
    total size. For four children of 100px in a stage of 250px with left
    alignment and sticky ends the slide width is 200, there are
    ceil(400/200) = 2 slides, and moving to slide 1 commits the clamped
    target 400 - 250 = 150. *)
Theorem packing_slide_width :
  (forall (o : Options) (size totalSize : Q) (first : Child)
          (rest : list Child),
      slide_size o = SizeNull ->
      slide_mode o = Multiple ->
      0 <= size ->
      let kids := first :: rest in
      let packed := pack_loop size 0 0 first rest in
      fst packed <= size
      /\ (snd packed = true ->
          fst packed = fit_sum size 0 kids
          /\ raw_slide_size o size totalSize kids = Num (fst packed))
      /\ (snd packed = false ->
          fst packed == sum_widths (removelast kids)
          /\ raw_slide_size o size totalSize kids
             = if Qlt_bool (fst packed) totalSize then Pct 100
               else Num (fst packed)))
  /\ (let c := four_children in
      resolve_size 250
        (raw_slide_size (options c) 250 400 (children c)) == 200
      /\ slides (model c) = Math_ceil (400 / 200)
      /\ slides (model c) = 2%Z
      /\ exists d,
           timers (moveToIndex 1 no_opts None c) = [d]
           /\ d_thisSlide d = 1%Z
           /\ d_target d == 400 - 250
           /\ d_target d == 150).
Proof.
  split.
  - intros o size totalSize first rest Hs Hm Hsize kids packed.
    subst kids packed. split; [| split].
    + apply pack_loop_le. lra.
    + intro H. split.
      * apply pack_loop_stopped. exact H.
      * unfold raw_slide_size. rewrite Hs, Hm.
        destruct (pack_loop size 0 0 first rest) as [s b].
        simpl in H. subst b. reflexivity.
    + intro H. split.
      * rewrite (pack_loop_exhausted size rest 0 0 first H). lra.
      * unfold raw_slide_size. rewrite Hs, Hm.
        destruct (pack_loop size 0 0 first rest) as [s b].
        simpl in H. subst b. reflexivity.
  - cbv zeta. split; [reflexivity |].
    split; [reflexivity |]. split; [reflexivity |].
    eexists. split; [reflexivity |].
    split; [reflexivity |]. split; reflexivity.
Qed.

(** Three children of 100px and one of 200px in a stage of 250px: the
    loop stops at the third child. *)
Lemma packing_slide_width_witness :
  let o := mkOptions true SizeNull AlignLeft Sticky Multiple true in
  let packed :=
    pack_loop 250 0 0 (mkChild 100 0) (lay_out 100 [100; 100; 200]) in
  fst packed <= 250
  /\ fst packed = fit_sum 250 0 (lay_out 0 [100; 100; 100; 200])
  /\ fst packed == 200.
Proof.
  intros o packed.
  destruct packing_slide_width as [H _].
  destruct (H o 250 500 (mkChild 100 0) (lay_out 100 [100; 100; 200])
              eq_refl eq_refl ltac:(vm_compute; discriminate))
    as (H1 & H2 & _).
  split; [exact H1 |].
  split; [apply H2; reflexivity | reflexivity].
Defined.

(** ** Resistance of a drag *)












(** ** Completion callbacks *)

Lemma called_observe (id : nat) (o : Obs) (c : Carousel) :
  called id (observe o c)
  = (called id c
     + match o with
       | Called i => if Nat.eqb i id then 1 else 0
       | Moved _ => 0
       end)%nat.
Proof.
  unfold called, observe. simpl. rewrite filter_app, length_app. simpl.
  destruct o as [t | i]; [reflexivity |].
  destruct (Nat.eqb i id); reflexivity.
Qed.

(** Calling a callback when no listener is registered makes the calls it
    owes and leaves no listener. *)
Lemma invoke_owed (id : nat) (cb : Callback) :
  forall c : Carousel,
    listeners c = [] ->
    called id (invoke cb c) = (called id c + owed_by id cb)%nat
    /\ listeners (invoke cb c) = [].
Proof.
  induction cb as [i | | lid to k IH]; intros c Hl; simpl.
  - rewrite called_observe. split; [reflexivity | exact Hl].
  - split; [lia | exact Hl].
  - match goal with
    | |- context [invoke k ?x] =>
        destruct (IH x) as [Hc Hl']; [simpl; rewrite Hl; reflexivity |]
    end.
    rewrite Hc, Hl'. split; [| reflexivity].
    unfold called. simpl. rewrite filter_app, length_app. simpl. lia.
Qed.

Lemma pending_quiescent (id : nat) (c : Carousel) :
  timers c = [] -> listeners c = [] -> pending id c = 0%nat.
Proof. intros Ht Hl. unfold pending. rewrite Ht, Hl. reflexivity. Qed.

(** A [move] on an instance with nothing pending: it finishes at once or
    leaves one delay; the calls of [id] made or owed grow by those of its
    callback. *)
Lemma move_idle (id : nat) (direction : Z) (opts : MoveOpts)
    (callback : option Callback) (c : Carousel) :
  timers c = [] -> listeners c = [] -> _moving c = false ->
  let c' := move direction opts callback c in
  slides (model c') = slides (model c)
  /\ (called id c' + pending id c'
      = called id c + owed_by_opt id callback)%nat
  /\ ((timers c' = [] /\ listeners c' = [])
      \/ exists d,
           timers c' = [d] /\ listeners c' = [] /\ _moving c' = true
           /\ current_slide (model c') = d_thisSlide d
           /\ d_thisSlide d = target_index c direction opts
           /\ d_direction d = direction).
Proof.
  intros Ht Hl Hm c'. subst c'.
  split; [apply (move_frame direction opts callback c) |].
  destruct (move_target c (target_index c direction opts)) as [t |] eqn:E.
  - destruct (move_commits c direction opts callback t Hm E)
      as (Hc & _ & _ & _ & Htm & Hmv & Hls & _ & Htr & _).
    rewrite Ht in Htm. cbn [app] in Htm.
    split.
    + unfold pending, called. rewrite Htm, Hls, Hl, Htr. simpl.
      destruct callback; simpl; lia.
    + right. eexists. split; [exact Htm |].
      split; [rewrite Hls; exact Hl |].
      split; [exact Hmv |]. split; [exact Hc |]. split; reflexivity.
  - rewrite (move_not_moving c direction opts callback Hm), E.
    destruct callback as [f |]; simpl.
    + destruct (invoke_owed id f c Hl) as [Hc Hl'].
      destruct (invoke_frame f c) as (_ & _ & Htm & _).
      rewrite Ht in Htm.
      rewrite (pending_quiescent id _ Htm Hl'), Hc. split; [lia |].
      left. split; assumption.
    + rewrite (pending_quiescent id c Ht Hl). split; [lia |].
      left. split; assumption.
Qed.

Lemma _move_rest (to : Q) (b : bool) (c : Carousel) :
  timers (_move to b c) = timers c
  /\ listeners (_move to b c) = listeners c
  /\ trace (_move to b c) = trace c
  /\ _moving (_move to b c) = _moving c.
Proof.
  unfold _move. destruct (children c); destruct b; repeat split.
Qed.

(** The index of a further move from an inner slide is the next slide in
    its direction. *)
Lemma target_index_inner (c : Carousel) (forward : bool) (opts : MoveOpts) :
  (0 < current_slide (model c) < slides (model c) - 1)%Z ->
  target_index c (if forward then 1 else -1) opts
  = (current_slide (model c) + (if forward then 1 else -1))%Z.
Proof.
  intro H.
  destruct (target_index_cases c (if forward then 1 else -1)%Z opts)
    as [[Hw _] | [_ Hi]].
  - destruct Hw as (_ & _ & _ & Hc). lia.
  - rewrite Hi. destruct forward; lia.
Qed.

(** The delayed part of a move, run when nothing else is pending: it
    finishes, or leaves its listener, or leaves the delay of a further
    move that is closer to the end. The calls of [id] made or owed stay
    those owed before. *)
Lemma run_delayed_idle (id : nat) (d : Delayed) (c : Carousel) :
  timers c = [] -> listeners c = [] ->
  current_slide (model c) = d_thisSlide d ->
  let c' := run_delayed d c in
  slides (model c') = slides (model c)
  /\ (called id c' + pending id c'
      = called id c + owed_by id (d_callback d))%nat
  /\ ((timers c' = [] /\ listeners c' = [])
      \/ (timers c' = [] /\ _moving c' = _moving c
          /\ exists lid to k, listeners c' = [CbTransitionEnd lid to k])
      \/ exists d',
           timers c' = [d'] /\ listeners c' = [] /\ _moving c' = true
           /\ current_slide (model c') = d_thisSlide d'
           /\ (remaining d' c' < remaining d c)%nat).
Proof.
  intros Ht Hl Hcur c'. subst c'. unfold run_delayed.
  set (c0 := set_listeners (listeners c) (S (next_listener c)) c).
  set (onTE := CbTransitionEnd (next_listener c) (d_thisSlide d)
                 (d_callback d)).
  cbv zeta.
  assert (Ht0 : timers c0 = []) by exact Ht.
  assert (Hl0 : listeners c0 = []) by exact Hl.
  assert (Hfin : forall c1 : Carousel,
             timers c1 = [] -> listeners c1 = [] ->
             model c1 = model c -> called id c1 = called id c ->
             slides (model (invoke onTE c1)) = slides (model c)
             /\ (called id (invoke onTE c1) + pending id (invoke onTE c1)
                 = called id c + owed_by id (d_callback d))%nat
             /\ timers (invoke onTE c1) = []
             /\ listeners (invoke onTE c1) = []).
  { intros c1 Ht1 Hl1 Hm1 Hc1.
    destruct (invoke_owed id onTE c1 Hl1) as [Hc Hl'].
    destruct (invoke_frame onTE c1) as (_ & Hm & Htm & _).
    rewrite Ht1 in Htm.
    rewrite (pending_quiescent id _ Htm Hl'), Hc, Hm, Hm1, Hc1.
    repeat split; try assumption. simpl. lia. }
  destruct (Qeq_bool (getCurrentOffset true c0) (- d_target d)); cbn [negb].
  - match goal with
    | |- context [if ?b then move _ _ _ _ else _] => destruct b eqn:Econd
    end.
    + apply andb_true_iff in Econd. destruct Econd as [Econd E5].
      apply andb_true_iff in Econd. destruct Econd as [Econd E4].
      apply andb_true_iff in Econd. destruct Econd as [_ E3].
      apply Z.ltb_lt in E5. apply Z.gtb_lt in E4.
      apply negb_true_iff in E3. apply Z.eqb_neq in E3.
      change (slides (model c0)) with (slides (model c)) in E5.
      set (c1 := set_moving false c0).
      set (fwd := (d_direction d >? 0)%Z).
      destruct (move_idle id (if fwd then 1 else -1)%Z (d_opts d)
                  (Some onTE) c1 Ht0 Hl0 eq_refl)
        as (Hs & Hacc & Hshape).
      split; [exact Hs |]. split; [exact Hacc |].
      destruct Hshape as [Hq | (d' & Htm & Hls & Hmv & Hc' & Hidx & Hdir)].
      * left. exact Hq.
      * right. right. exists d'.
        split; [exact Htm |]. split; [exact Hls |].
        split; [exact Hmv |]. split; [exact Hc' |].
        rewrite (target_index_inner c1 fwd (d_opts d)) in Hidx
          by (change (current_slide (model c1)) with (current_slide (model c));
              change (slides (model c1)) with (slides (model c));
              rewrite Hcur; lia).
        change (current_slide (model c1)) with (current_slide (model c))
          in Hidx.
        rewrite Hcur in Hidx.
        unfold remaining. rewrite Hs, Hidx, Hdir.
        change (slides (model c1)) with (slides (model c)).
        replace ((0 <? d_thisSlide d)%Z
                 && (d_thisSlide d <? slides (model c) - 1)%Z)
          with true
          by (symmetry; apply andb_true_iff; split;
              [apply Z.ltb_lt | apply Z.ltb_lt]; lia).
        fold fwd.
        destruct ((0 <? _)%Z && (_ <? _)%Z);
          destruct fwd; cbn [Z.gtb Z.compare]; lia.
    + destruct (Hfin c0 Ht0 Hl0 eq_refl eq_refl) as (H1 & H2 & H3 & H4).
      split; [exact H1 |]. split; [exact H2 |]. left. split; assumption.
  - destruct (has_transitionend (options c)); cbn [negb].
    + match goal with
      | |- context [_move ?t ?b ?x] =>
          destruct (_move_rest t b x) as (M1 & M2 & M3 & M4);
          destruct (_move_model t b x) as (M5 & _)
      end.
      unfold called, pending. rewrite M1, M2, M3, M4, M5. simpl.
      rewrite Ht, Hl. simpl.
      split; [reflexivity |]. split; [lia |].
      right. left. split; [reflexivity |]. split; [reflexivity |].
      do 3 eexists. reflexivity.
    + match goal with
      | |- context [_move ?t ?b ?x] =>
          destruct (_move_rest t b x) as (M1 & M2 & M3 & M4);
          destruct (_move_model t b x) as (M5 & _);
          destruct (Hfin (_move t b x)) as (H1 & H2 & H3 & H4)
      end.
      * rewrite M1. exact Ht0.
      * rewrite M2. exact Hl0.
      * rewrite M5. reflexivity.
      * unfold called. rewrite M3. reflexivity.
      * split; [exact H1 |]. split; [exact H2 |]. left. split; assumption.
Qed.

Lemma consistent_cases (c : Carousel) :
  consistent c ->
  (timers c = [] /\ listeners c = [])
  \/ (exists d, timers c = [d] /\ listeners c = [] /\ _moving c = true
                /\ current_slide (model c) = d_thisSlide d)
  \/ (exists lid to k,
         timers c = [] /\ listeners c = [CbTransitionEnd lid to k]
         /\ _moving c = true).
Proof.
  unfold consistent.
  destruct (timers c) as [| d [| d2 ts]];
    destruct (listeners c) as [| [i | | lid to k] [| l2 ls]];
    intro H; try contradiction.
  - left. split; reflexivity.
  - right. right. exists lid, to, k. repeat split. exact H.
  - right. left. exists d. destruct H. repeat split; assumption.
Qed.

Lemma consistent_quiescent (c : Carousel) :
  timers c = [] -> listeners c = [] -> consistent c.
Proof. intros Ht Hl. unfold consistent. rewrite Ht, Hl. exact I. Qed.

Lemma consistent_delay (c : Carousel) (d : Delayed) :
  timers c = [d] -> listeners c = [] -> _moving c = true ->
  current_slide (model c) = d_thisSlide d -> consistent c.
Proof.
  intros Ht Hl Hm Hc. unfold consistent. rewrite Ht, Hl. split; assumption.
Qed.

(** A call of [move] whose callback, if any, is a function of the
    caller. *)
Lemma move_consistent (id : nat) (direction : Z) (opts : MoveOpts)
    (callback : option Callback) (c : Carousel) :
  match callback with
  | Some (CbUser _) | None => True
  | Some _ => False
  end ->
  consistent c ->
  let c' := move direction opts callback c in
  consistent c'
  /\ slides (model c') = slides (model c)
  /\ (called id c' + pending id c'
      = called id c + pending id c + owed_by_opt id callback)%nat.
Proof.
  intros Hcb Hc c'. subst c'.
  destruct (_moving c) eqn:Hm.
  - unfold move. rewrite Hm.
    destruct callback as [[i | | lid to k] |]; try contradiction; simpl.
    + rewrite called_observe. repeat split; [exact Hc | ].
      unfold pending. simpl. lia.
    + repeat split; [exact Hc | lia].
  - destruct (consistent_cases c Hc)
      as [[Ht Hl] | [(d & _ & _ & Hm' & _) | (lid & to & k & _ & _ & Hm')]];
      try congruence.
    destruct (move_idle id direction opts callback c Ht Hl Hm)
      as (Hs & Hacc & Hshape).
    rewrite (pending_quiescent id c Ht Hl).
    split; [| split; [exact Hs | lia]].
    destruct Hshape as [[Ht' Hl'] | (d & Ht' & Hl' & Hm' & Hc' & _)].
    + apply consistent_quiescent; assumption.
    + apply (consistent_delay _ d); assumption.
Qed.

(** The expiry of the delay. *)
Lemma delay_consistent (id : nat) (c : Carousel) :
  consistent c ->
  let c' := step DelayExpires c in
  consistent c'
  /\ slides (model c') = slides (model c)
  /\ (called id c' + pending id c' = called id c + pending id c)%nat
  /\ (timers c <> [] -> (backlog c' < backlog c)%nat).
Proof.
  intros Hc c'. subst c'.
  destruct (consistent_cases c Hc)
    as [[Ht Hl] | [(d & Ht & Hl & Hm & Hcur)
                  | (lid & to & k & Ht & Hl & Hm)]];
    unfold step; rewrite Ht.
  - repeat split; [exact Hc | congruence].
  - destruct (run_delayed_idle id d (set_timers [] c) eq_refl Hl Hcur)
      as (Hs & Hacc & Hshape).
    assert (Hp : pending id c = owed_by id (d_callback d)).
    { unfold pending. rewrite Ht, Hl. simpl. lia. }
    rewrite Hp.
    split; [| split; [exact Hs |
                      split; [exact Hacc |]]].
    + destruct Hshape
        as [[Ht' Hl'] | [(Ht' & Hm' & lid & to & k & Hl')
                        | (d' & Ht' & Hl' & Hm' & Hc' & _)]].
      * apply consistent_quiescent; assumption.
      * unfold consistent. rewrite Ht', Hl'. rewrite Hm'. exact Hm.
      * apply (consistent_delay _ d'); assumption.
    + intros _. unfold backlog at 2. rewrite Ht.
      destruct Hshape
        as [[Ht' Hl'] | [(Ht' & Hm' & lid & to & k & Hl')
                        | (d' & Ht' & Hl' & Hm' & Hc' & Hlt)]];
        unfold backlog; rewrite Ht', ?Hl'.
      * lia.
      * lia.
      * unfold remaining in *. rewrite Hs in *. simpl in Hlt.
        simpl. lia.
  - repeat split; [exact Hc | congruence].
Qed.

(** The [transitionend] event. *)
Lemma transition_consistent (id : nat) (c : Carousel) :
  consistent c ->
  let c' := step TransitionEnds c in
  consistent c'
  /\ slides (model c') = slides (model c)
  /\ (called id c' + pending id c' = called id c + pending id c)%nat
  /\ (timers c = [] -> listeners c <> [] -> (backlog c' < backlog c)%nat).
Proof.
  intros Hc c'. subst c'.
  destruct (consistent_cases c Hc)
    as [[Ht Hl] | [(d & Ht & Hl & Hm & Hcur)
                  | (lid & to & k & Ht & Hl & Hm)]];
    unfold step; rewrite Hl; cbn [fold_left].
  - repeat split; [exact Hc | congruence].
  - repeat split; [exact Hc | congruence].
  - cbn [invoke].
    set (c1 := set_moving false
                 (observe (Moved to)
                    (set_listeners
                       (remove_listener lid (listeners c))
                       (next_listener c) c))).
    assert (Hl1 : listeners c1 = []).
    { subst c1. simpl. rewrite Hl. simpl. rewrite Nat.eqb_refl. reflexivity. }
    destruct (invoke_owed id k c1 Hl1) as [Hcall Hl'].
    destruct (invoke_frame k c1) as (_ & Hmod & Htm & _).
    assert (Ht' : timers (invoke k c1) = []) by (rewrite Htm; exact Ht).
    split; [apply consistent_quiescent; assumption |].
    split; [rewrite Hmod; reflexivity |].
    split.
    + rewrite (pending_quiescent id _ Ht' Hl'), Hcall.
      unfold pending. rewrite Ht, Hl.
      replace (called id c1) with (called id c).
      * simpl. lia.
      * subst c1. unfold called. simpl. rewrite filter_app, length_app.
        simpl. lia.
    + intros _ _. unfold backlog. rewrite Ht', Hl', Ht, Hl. lia.
Qed.

Lemma run_consistent (id : nat) (l : list Action) :
  forall c : Carousel,
    Forall (other_action id) l ->
    consistent c ->
    consistent (run l c)
    /\ (called id (run l c) + pending id (run l c)
        = called id c + pending id c)%nat.
Proof.
  unfold run.
  induction l as [| a l IH]; intros c Hl Hc; simpl.
  - split; [exact Hc | reflexivity].
  - inversion Hl as [| ? ? Ha Hrest]; subst.
    assert (Hstep : consistent (step a c)
                    /\ (called id (step a c) + pending id (step a c)
                        = called id c + pending id c)%nat).
    { destruct a as [direction opts callback | |].
      - cbn [step].
        destruct (move_consistent id direction opts callback c)
          as (H1 & _ & H2); [| exact Hc |].
        + destruct callback as [[i | | ? ? ?] |]; simpl in Ha; auto.
        + split; [exact H1 |]. rewrite H2.
          destruct callback as [[i | | ? ? ?] |]; simpl in Ha |- *;
            try lia.
          destruct (Nat.eqb_spec i id); [contradiction | lia].
      - destruct (delay_consistent id c Hc) as (H1 & _ & H2 & _). auto.
      - destruct (transition_consistent id c Hc) as (H1 & _ & H2 & _). auto. }
    destruct Hstep as [Hc' Hacc].
    destruct (IH (step a c) Hrest Hc') as [H1 H2].
    split; [exact H1 | lia].
Qed.

(** The host brings a consistent instance to rest in [backlog] steps. *)
Lemma settle_consistent (id : nat) (fuel : nat) :
  forall c : Carousel,
    consistent c ->
    (backlog c <= fuel)%nat ->
    quiescent (settle fuel c)
    /\ slides (model (settle fuel c)) = slides (model c)
    /\ (called id (settle fuel c) + pending id (settle fuel c)
        = called id c + pending id c)%nat.
Proof.
  induction fuel as [| f IH]; intros c Hc Hb.
  - simpl. unfold backlog in Hb.
    destruct (timers c) as [| d ts] eqn:Ht; [| lia].
    destruct (listeners c) as [| l ls] eqn:Hl; [| lia].
    repeat split; assumption.
  - cbn [settle].
    destruct (timers c) as [| d ts] eqn:Ht.
    + destruct (listeners c) as [| l ls] eqn:Hl.
      * repeat split; assumption.
      * destruct (transition_consistent id c Hc) as (H1 & H2 & H3 & H4).
        destruct (IH (step TransitionEnds c) H1) as (G1 & G2 & G3).
        { specialize (H4 Ht ltac:(rewrite Hl; discriminate)). lia. }
        split; [exact G1 |]. split; [congruence | lia].
    + destruct (delay_consistent id c Hc) as (H1 & H2 & H3 & H4).
      destruct (IH (step DelayExpires c) H1) as (G1 & G2 & G3).
      { specialize (H4 ltac:(rewrite Ht; discriminate)). lia. }
      split; [exact G1 |]. split; [congruence | lia].
Qed.

Lemma backlog_bound (c : Carousel) :
  (backlog c <= Z.to_nat (slides (model c)) + 2)%nat.
Proof.
  unfold backlog, remaining.
  destruct (timers c) as [| d ts]; [destruct (listeners c); lia |].
  destruct ((0 <? d_thisSlide d)%Z
            && (d_thisSlide d <? slides (model c) - 1)%Z) eqn:E; [| lia].
  apply andb_true_iff in E. destruct E as [E1 E2].
  apply Z.ltb_lt in E1, E2.
  destruct (d_direction d >? 0)%Z; lia.
Qed.

Lemma calculate_pending (c : Carousel) :
  timers (calculate c) = timers c /\ listeners (calculate c) = listeners c.
Proof.
  destruct c as [o es ess ch so dsi dp m mv co nv tm ls nl tr].
  unfold calculate, getTotalSize, _move.
  destruct ch as [| first rest];
    cbn -[raw_slide_size count_slides slide_offsets resolve_size];
    destruct (slide_offsets _ _ _) as [l r]; destruct nv;
    split; reflexivity.
Qed.

(** The instances that callers and the host can bring about are
    consistent. *)
Lemma reachable_consistent (id : nat) (o : Options) (size scrollSize : Q)
    (kids : list Child) (with_nav : bool) (l : list Action) :
  Forall (other_action id) l ->
  consistent (run l (attached o size scrollSize kids with_nav)).
Proof.
  intro Hl. apply (run_consistent id l _ Hl).
  destruct (calculate_pending (initialize o size scrollSize kids with_nav))
    as [Ht Hls].
  apply consistent_quiescent; unfold attached; [rewrite Ht | rewrite Hls];
    reflexivity.
Qed.

(** C8. A function passed to [move] as the completion callback is called
    exactly once, whatever path the move takes (dropped because a move is
    in flight, aborted in single-flex mode, finished without animation,
    issued again from a sticky single slide, or animated): from the call
    on, and through any further moves, delays and transition ends, the
    calls made plus the calls still owed by the pending work are exactly
    one, and once the host has run the pending work -- at most
    slide-count + 2 delays and transition ends -- the call has been
    made. *)
Theorem move_callback_once (c : Carousel) (direction : Z) (opts : MoveOpts)
    (id : nat) :
  consistent c ->
  (called id c + pending id c = 0)%nat ->
  let c1 := move direction opts (Some (CbUser id)) c in
  (forall l : list Action,
      Forall (other_action id) l ->
      (called id (run l c1) + pending id (run l c1) = 1)%nat)
  /\ (forall fuel : nat,
         (Z.to_nat (slides (model c)) + 2 <= fuel)%nat ->
         quiescent (settle fuel c1) /\ called id (settle fuel c1) = 1%nat).
Proof.
  intros Hc Hfresh c1.
  destruct (move_consistent id direction opts (Some (CbUser id)) c I Hc)
    as (Hc1 & Hs & Hacc).
  fold c1 in Hc1, Hs, Hacc. simpl in Hacc. rewrite Nat.eqb_refl in Hacc.
  split.
  - intros l Hl.
    destruct (run_consistent id l c1 Hl Hc1) as [_ H]. lia.
  - intros fuel Hfuel.
    destruct (settle_consistent id fuel c1 Hc1) as (Hq & _ & H).
    { pose proof (backlog_bound c1). rewrite Hs in *. lia. }
    split; [exact Hq |].
    destruct Hq as [Ht Hl].
    rewrite (pending_quiescent id _ Ht Hl) in H. lia.
Qed.

(** [next()] with a callback on the first of five single slides: the
    second slide has the same sticky target as the first, a further move
    is issued, and the callback is called once when that one ends. *)
Lemma move_callback_once_witness :
  let c1 := move 1 no_opts (Some (CbUser 3)) five_single in
  quiescent (settle 7 c1)
  /\ called 3 (settle 7 c1) = 1%nat
  /\ trace (settle 7 c1) = [Moved 2; Moved 1; Called 3%nat].
Proof.
  intro c1.
  assert (Hc : consistent five_single) by exact I.
  assert (Hf : (called 3 five_single + pending 3 five_single = 0)%nat)
    by reflexivity.
  destruct (move_callback_once five_single 1 no_opts 3 Hc Hf) as [_ H].
  destruct (H 7%nat) as [Hq Hcalled].
  - vm_compute. repeat constructor.
  - split; [exact Hq | split; [exact Hcalled | reflexivity]].
Defined.

(** * Further properties of the code *)

(** ** Offsets: write, read, measure *)


(** X1. [_move(to)] followed by [getCurrentOffset] gives [to] back, raw or
    not. [_move(to, false)] leaves the recorded offset alone; the raw read
    then gives [to] when there is a child and [to] is not 0, and falls
    back to the recorded offset when [to] is 0. *)
Theorem move_then_read (to : Q) (c : Carousel) :
  getCurrentOffset true (_move to true c) = to
  /\ getCurrentOffset false (_move to true c) = to
  /\ getCurrentOffset false (_move to false c) = getCurrentOffset false c
  /\ (children c <> [] -> ~ to == 0 ->
      getCurrentOffset true (_move to false c) = to)
  /\ (to == 0 ->
      getCurrentOffset true (_move to false c) = getCurrentOffset false c).
Proof.
  unfold _move, getCurrentOffset.
  destruct (children c) as [| first rest] eqn:Ec; simpl; rewrite Ec.
  - repeat split; try reflexivity. intros H. congruence.
  - destruct (Qeq_bool to 0) eqn:E0.
    + apply Qeq_bool_iff in E0. repeat split; try reflexivity.
      intros _ H. contradiction.
    + apply Qeq_bool_neq in E0. repeat split; try reflexivity.
      intro H. contradiction.
Qed.

(** A drag of three slides to 40px, not recorded, and back to 0. *)
Lemma move_then_read_witness :
  getCurrentOffset true (_move (- (40)) false three_slides) = - (40)
  /\ getCurrentOffset true
       (_move 0 false (_move (- (300)) true three_slides)) = - (300).
Proof.
  destruct (move_then_read (- (40)) three_slides) as (_ & _ & _ & H & _).
  destruct (move_then_read 0 (_move (- (300)) true three_slides))
    as (_ & _ & _ & _ & H0).
  split.
  - apply H; vm_compute; discriminate.
  - rewrite H0; reflexivity.
Defined.


(** ** calculate: the geometry it writes *)

Lemma calculate_offsets_sum (c : Carousel) :
  slide_offset_left (model (calculate c))
  + slide_offset_right (model (calculate c))
  == stage_size (model (calculate c)) - slide_width c.
Proof.
  destruct (calculate_model c) as (_ & _ & Hst & _ & Hl & Hr).
  cbv zeta in Hst, Hl, Hr. rewrite Hst, Hl, Hr. fold (slide_width c).
  unfold slide_offsets.
  destruct (slide_alignment (options c)); cbn [fst snd]; field.
Qed.

(** The target of a slide after [calculate]. *)
Lemma calculate_target_eq (c : Carousel) (j : Z) :
  fixed_target (calculate c) j
  == inject_Z j * slide_width c - slide_offset_left (model (calculate c)).
Proof.
  unfold fixed_target. cbv zeta. rewrite (calculate_offsets_sum c). ring.
Qed.

(** X3. [calculate] shares what the stage has left beside a slide between
    the two offsets: they add up to stage size minus slide width, all of
    it on the right for left alignment, all of it on the left for right
    alignment, half on each side for center. *)
Theorem calculate_offsets (c : Carousel) :
  let m := model (calculate c) in
  slide_offset_left m + slide_offset_right m
  == stage_size m - slide_width c
  /\ match slide_alignment (options c) with
     | AlignLeft => slide_offset_left m == 0
     | AlignRight => slide_offset_right m == 0
     | AlignCenter => slide_offset_left m == slide_offset_right m
     end.
Proof.
  cbv zeta. split; [apply calculate_offsets_sum |].
  destruct (calculate_model c) as (_ & _ & _ & _ & Hl & Hr).
  cbv zeta in Hl, Hr. rewrite Hl, Hr. unfold slide_offsets.
  destruct (slide_alignment (options c)); reflexivity.
Qed.

(** X4. After [calculate], the target of slide [i] in the modes with one
    slide width is [i] slide widths minus the left offset: the targets of
    neighbouring slides are exactly one slide width apart. *)
Theorem calculate_targets (c : Carousel) (i : Z) :
  let c' := calculate c in
  fixed_target c' i
  == inject_Z i * slide_width c - slide_offset_left (model c')
  /\ fixed_target c' (i + 1) - fixed_target c' i == slide_width c.
Proof.
  cbv zeta. split; [apply calculate_target_eq |].
  rewrite !calculate_target_eq, inject_Z_plus. ring.
Qed.

Lemma ceil_cover (t w : Q) :
  0 < w -> 0 < t ->
  (1 <= Qceiling (t / w))%Z
  /\ t <= inject_Z (Qceiling (t / w)) * w
  /\ inject_Z (Qceiling (t / w) - 1) * w < t.
Proof.
  intros Hw Ht.
  assert (Hw0 : ~ w == 0) by lra.
  pose proof (Qle_ceiling (t / w)) as Hup.
  pose proof (Qceiling_lt (t / w)) as Hlo.
  assert (Hq : 0 < t / w) by (apply Qlt_shift_div_l; lra).
  assert (Hpos : (1 <= Qceiling (t / w))%Z).
  { assert (H0 : 0 < inject_Z (Qceiling (t / w))) by lra.
    change 0 with (inject_Z 0) in H0. rewrite <- Zlt_Qlt in H0. lia. }
  split; [exact Hpos |].
  assert (Ht' : t == t / w * w) by (field; exact Hw0).
  split.
  - rewrite Ht' at 1. apply Qmult_le_compat_r; lra.
  - rewrite Ht' at 2. apply Qmult_lt_compat_r; lra.
Qed.

(** The slide count of the modes that divide the total size. *)
Lemma count_slides_ceil (o : Options) (t w : Q) (kids : list Child) :
  is_null (slide_size o) && contains_single (slide_mode o) = false ->
  0 < w -> 0 < t ->
  count_slides o t w kids = Qceiling (t / w).
Proof.
  intros Hmode Hw Ht. unfold count_slides. rewrite Hmode.
  assert (E0 : Qeq_bool w 0 = false).
  { destruct (Qeq_bool w 0) eqn:E; [| reflexivity].
    apply Qeq_bool_iff in E. lra. }
  rewrite E0. cbn [orb]. unfold Math_ceil.
  destruct (ceil_cover t w Hw Ht) as (Hpos & _).
  replace (Qceiling (t / w) =? 0)%Z with false
    by (symmetry; apply Z.eqb_neq; lia).
  reflexivity.
Qed.

(** X5. When the slide count is not the number of children (a configured
    slide size, or multiple mode) and the slide width and the total size
    are positive, the slide count is the least number of slides that
    cover the total size. *)
Theorem calculate_slides_cover (c : Carousel) :
  is_null (slide_size (options c)) && contains_single (slide_mode (options c))
  = false ->
  0 < slide_width c ->
  0 < element_scroll_size c ->
  let n := slides (model (calculate c)) in
  (1 <= n)%Z
  /\ element_scroll_size c <= inject_Z n * slide_width c
  /\ inject_Z (n - 1) * slide_width c < element_scroll_size c.
Proof.
  intros Hmode Hw Ht n. subst n.
  destruct (calculate_model c) as (Hs & _). cbv zeta in Hs.
  fold (slide_width c) in Hs.
  rewrite Hs, (count_slides_ceil _ _ _ _ Hmode Hw Ht).
  apply ceil_cover; assumption.
Qed.

(** 400px of content in slides of 200px, and 500px in slides of 300px. *)
Lemma calculate_slides_cover_witness :
  let c := initialize (mkOptions true (SizePx 300) AlignCenter Sticky
                         Multiple true) 400 500 [] false in
  500 <= inject_Z (slides (model (calculate c))) * 300
  /\ inject_Z (slides (model (calculate c)) - 1) * 300 < 500.
Proof.
  intro c.
  destruct (calculate_slides_cover c) as (_ & H1 & H2).
  - reflexivity.
  - reflexivity.
  - reflexivity.
  - split; [exact H1 | exact H2].
Defined.

(** [calculate] as one record. *)
Lemma calculate_eq (c : Carousel) :
  calculate c
  = mkCarousel (options c) (element_size c) (element_scroll_size c)
      (children c)
      (match children c with
       | [] => style_offset c
       | _ :: _ => Some (getCurrentOffset true c)
       end)
      (data_slide_index c) (data_position c)
      (mkModel (element_size c) (element_scroll_size c)
         (fst (slide_offsets (slide_alignment (options c)) (element_size c)
                 (slide_width c)))
         (snd (slide_offsets (slide_alignment (options c)) (element_size c)
                 (slide_width c)))
         (count_slides (options c) (element_scroll_size c) (slide_width c)
            (children c))
         (current_slide (model c)))
      (_moving c) (getCurrentOffset true c)
      (match nav c with
       | Some n =>
           Some (Nav.update
                   (count_slides (options c) (element_scroll_size c)
                      (slide_width c) (children c)) n)
       | None => None
       end)
      (timers c) (listeners c) (next_listener c) (trace c).
Proof.
  destruct c as [o es ess ch so dsi dp m mv co nv tm ls nl tr].
  unfold calculate, getTotalSize, _move, slide_width.
  destruct ch as [| first rest];
    cbn -[raw_slide_size count_slides slide_offsets resolve_size Nav.update];
    destruct (slide_offsets _ _ _) as [l r]; destruct nv;
    cbn -[raw_slide_size count_slides slide_offsets resolve_size Nav.update];
    reflexivity.
Qed.

(** X6. [calculate] on an element that did not change is idempotent: a
    second [calculate] (as in [fix()] after [fix()]) leaves the instance
    as the first one left it. *)
Theorem calculate_idempotent (c : Carousel) :
  calculate (calculate c) = calculate c.
Proof.
  rewrite (calculate_eq c).
  match goal with |- calculate ?r = _ => set (c1 := r) end.
  rewrite (calculate_eq c1).
  assert (Hraw : getCurrentOffset true c1 = getCurrentOffset true c).
  { subst c1. unfold getCurrentOffset at 1. cbn [children style_offset currentOffset].
    destruct (children c) as [| first rest] eqn:Ec.
    - unfold getCurrentOffset. rewrite Ec. reflexivity.
    - destruct (Qeq_bool (getCurrentOffset true c) 0); reflexivity. }
  rewrite Hraw. clear Hraw. subst c1. unfold slide_width.
  cbn [options element_size element_scroll_size children style_offset
       data_slide_index data_position model _moving nav timers listeners
       next_listener trace current_slide].
  destruct (children c); destruct (nav c); unfold Nav.update; reflexivity.
Qed.

Lemma sticky_clamp_monotone (c : Carousel) (a b : Q) :
  a <= b -> sticky_clamp c a <= sticky_clamp c b.
Proof.
  intro H. unfold sticky_clamp.
  destruct (is_sticky (slide_ends_alignment (options c))); [| exact H].
  cbv zeta. set (hi := total_size (model c) - stage_size (model c)).
  destruct (Qlt_bool a 0) eqn:Ea; destruct (Qlt_bool b 0) eqn:Eb;
    try (apply Qlt_bool_true in Ea); try (apply Qlt_bool_true in Eb);
    try (apply Qlt_bool_false in Ea); try (apply Qlt_bool_false in Eb);
    repeat match goal with
           | |- context [Qlt_bool hi ?x] =>
               let E := fresh "E" in
               destruct (Qlt_bool hi x) eqn:E;
               [apply Qlt_bool_true in E | apply Qlt_bool_false in E]
           end; lra.
Qed.

(** X7. After [calculate] on an element with measures that are not
    negative, in the modes with one slide width, the targets that [move]
    commits do not decrease with the slide index: a move to a later slide
    never scrolls back. *)
Theorem targets_monotone (c : Carousel) (i j : Z) (ti tj : Q) :
  slide_size_wf (slide_size (options c)) ->
  0 <= element_size c ->
  Forall (fun ch => 0 <= width ch) (children c) ->
  is_null (slide_size (options c)) && is_single_flex (slide_mode (options c))
  = false ->
  (i <= j)%Z ->
  move_target (calculate c) i = Some ti ->
  move_target (calculate c) j = Some tj ->
  ti <= tj.
Proof.
  intros Hwf Hsize Hw Hmode Hij Hi Hj.
  assert (Ho : options (calculate c) = options c)
    by (rewrite calculate_eq; reflexivity).
  unfold move_target, raw_target in Hi, Hj.
  rewrite Ho, Hmode in Hi, Hj.
  injection Hi as <-. injection Hj as <-.
  apply sticky_clamp_monotone.
  rewrite (calculate_target_eq c i), (calculate_target_eq c j).
  pose proof (resolved_size_nonneg (options c) (element_size c)
                (element_scroll_size c) (children c) Hwf Hsize Hw) as Hnn.
  fold (slide_width c) in Hnn.
  assert (Hq : inject_Z i <= inject_Z j) by (rewrite <- Zle_Qle; exact Hij).
  assert (Hm : inject_Z i * slide_width c <= inject_Z j * slide_width c)
    by (apply Qmult_le_compat_r; assumption).
  lra.
Qed.

(** Slides 0 and 1 of the four children of 100px: targets 0 and 150. *)
Lemma targets_monotone_witness :
  exists ti tj : Q,
    move_target four_children 0 = Some ti
    /\ move_target four_children 1 = Some tj
    /\ ti <= tj.
Proof.
  set (c := initialize (mkOptions true SizeNull AlignLeft Sticky Multiple
                          true) 250 400 (lay_out 0 [100; 100; 100; 100])
              true).
  assert (Hi : exists ti, move_target (calculate c) 0 = Some ti)
    by (eexists; reflexivity).
  assert (Hj : exists tj, move_target (calculate c) 1 = Some tj)
    by (eexists; reflexivity).
  destruct Hi as [ti Hi]. destruct Hj as [tj Hj].
  exists ti, tj. split; [exact Hi | split; [exact Hj |]].
  apply (targets_monotone c 0 1 ti tj); try assumption.
  - exact I.
  - vm_compute. discriminate.
  - repeat constructor; vm_compute; discriminate.
  - reflexivity.
  - lia.
Defined.

(** In single-flex mode the target of a slide, before the ends are
    made sticky, puts the child at the alignment: its left edge at the
    left edge of the stage for left alignment, its right edge at the right
    edge of the stage for right alignment, its middle at the middle of the
    stage for center; a slide without a child has no target. *)
Lemma flex_target_aligns (c : Carousel) (i : Z) :
  match child_at i (children c), flex_target c i with
  | Some ch, Some target =>
      match slide_alignment (options c) with
      | AlignLeft => target == offsetLeft ch
      | AlignRight =>
          target + stage_size (model c) == offsetLeft ch + width ch
      | AlignCenter =>
          target + stage_size (model c) / 2 == offsetLeft ch + width ch / 2
      end
  | None, None => True
  | _, _ => False
  end.
Proof.
  unfold flex_target.
  destruct (child_at i (children c)) as [ch |]; [| exact I].
  destruct (slide_alignment (options c)).
  - reflexivity.
  - ring.
  - field.
Qed.

Lemma pack_loop_ge (size : Q) (rest : list Child) :
  forall (slideSize childSize : Q) (cur : Child),
    Forall (fun ch => 0 <= width ch) (cur :: rest) ->
    slideSize + childSize
    <= fst (pack_loop size slideSize childSize cur rest).
Proof.
  induction rest as [| next rest IH]; intros slideSize childSize cur Hw;
    simpl.
  - destruct (Qle_bool _ size); simpl; lra.
  - destruct (Qle_bool _ size); simpl; [| lra].
    inversion Hw as [| ? ? Hcur Hrest]; subst.
    specialize (IH (slideSize + childSize) (width cur) next Hrest). lra.
Qed.

(** X8. In single-flex mode with two children or more, the slide count is
    the number of children when the first child has a width and fits the
    stage, and it is 1 -- the carousel has a single slide -- when the
    first child is wider than the stage. *)
Theorem flex_slide_count (c : Carousel) (first second : Child)
    (rest : list Child) :
  slide_size (options c) = SizeNull ->
  slide_mode (options c) = SingleFlex ->
  children c = first :: second :: rest ->
  (0 < width first -> width first <= element_size c ->
   Forall (fun ch => 0 <= width ch) (children c) ->
   slides (model (calculate c)) = Z.of_nat (length (children c)))
  /\ (element_size c < width first -> slides (model (calculate c)) = 1%Z).
Proof.
  intros Hs Hm Hc.
  destruct (calculate_model c) as (Hn & _). cbv zeta in Hn.
  rewrite Hn. clear Hn.
  unfold count_slides, raw_slide_size. rewrite Hs, Hm, Hc.
  cbn [is_null contains_single andb pack_loop].
  split.
  - intros Hpos Hfit Hw.
    assert (E : Qle_bool (0 + 0 + width first) (element_size c) = true)
      by (apply Qle_bool_iff; lra).
    rewrite E.
    inversion Hw as [| ? ? _ Hrest]; subst.
    pose proof (pack_loop_ge (element_size c) rest (0 + 0) (width first)
                  second Hrest) as Hge.
    destruct (pack_loop (element_size c) (0 + 0) (width first) second rest)
      as [s b]. cbn [fst] in Hge.
    assert (Hnz : forall v : SizeVal,
               v = Pct 100 \/ v = Num s ->
               Qeq_bool (resolve_size (element_size c) v) 0 = false).
    { intros v [-> | ->]; simpl;
        match goal with
        | |- Qeq_bool ?x 0 = false =>
            destruct (Qeq_bool x 0) eqn:E0; [| reflexivity];
            apply Qeq_bool_iff in E0
        end.
      - assert (H1 : element_size c * (inject_Z 100 / 100)
                     == element_size c)
          by (unfold inject_Z; field).
        rewrite H1 in E0. lra.
      - lra. }
    rewrite (Hnz _ (match negb b && Qlt_bool s (element_scroll_size c)
                          as x return
                          ((if x then Pct 100 else Num s) = Pct 100
                           \/ (if x then Pct 100 else Num s) = Num s)
                    with
                    | true => or_introl eq_refl
                    | false => or_intror eq_refl
                    end)).
    reflexivity.
  - intro Hwide.
    assert (E : Qle_bool (0 + 0 + width first) (element_size c) = false).
    { destruct (Qle_bool _ _) eqn:E'; [| reflexivity].
      apply Qle_bool_iff in E'. lra. }
    rewrite E. reflexivity.
Qed.

(** Children of 100px and 200px in a stage of 250px, and children of
    300px in the same stage. *)
Lemma flex_slide_count_witness :
  let o := mkOptions true SizeNull AlignCenter Sticky SingleFlex true in
  slides (model (attached o 250 300 (lay_out 0 [100; 200]) false)) = 2%Z
  /\ slides (model (attached o 250 900 (lay_out 0 [300; 300; 300]) false))
     = 1%Z.
Proof.
  intro o. split.
  - apply (flex_slide_count
             (initialize o 250 300 (lay_out 0 [100; 200]) false)
             (mkChild 100 0) (mkChild 200 (0 + 100)) []);
      try reflexivity.
    + vm_compute. discriminate.
    + repeat constructor; vm_compute; discriminate.
  - apply (flex_slide_count
             (initialize o 250 900 (lay_out 0 [300; 300; 300]) false)
             (mkChild 300 0) (mkChild 300 (0 + 300))
             [mkChild 300 (0 + 300 + 300)]);
      reflexivity.
Defined.

(** ** Moving to an index and the nav *)

Lemma setSelected_length (index : option Z) (items : Nav.t) :
  length (Nav.setSelected index items) = length items.
Proof.
  unfold Nav.setSelected. cbv zeta.
  assert (H : forall (l : Nav.t) (j : nat),
             length (Nav.addClassAt j l) = length l).
  { induction l as [| it rest IH]; intros [| j]; simpl; auto. }
  destruct (Nav.has_child _ _); rewrite ?H; apply NavFacts.removeClass_length.
Qed.

(** X9. [moveToIndex(i)] on an instance that is not moving, with [i] one
    of the slides and a target for it, makes [i] the current slide
    whatever the event tag (the loop override cannot apply), and a nav
    with one item per slide then shows item [i] selected. [onNavChoose]
    does the same for the chosen index. *)
Theorem moveToIndex_commits (c : Carousel) (index : Z) (opts : MoveOpts)
    (callback : option Callback) (restart : nat) :
  _moving c = false ->
  in_range c ->
  (0 <= index <= slides (model c) - 1)%Z ->
  move_target c index <> None ->
  let c' := moveToIndex index opts callback c in
  current_slide (model c') = index
  /\ data_slide_index c' = index
  /\ (forall items : Nav.t,
         nav c = Some items ->
         Z.of_nat (length items) = slides (model c) ->
         exists items',
           nav c' = Some items'
           /\ Nav.selected_indices items' = [index])
  /\ current_slide (model (onNavChoose index restart c)) = index.
Proof.
  intros Hm [Hs Hr] Hi Ht c'.
  assert (Hidx : forall o : MoveOpts,
             target_index c (index - current_slide (model c)) o = index).
  { intro o.
    destruct (target_index_cases c (index - current_slide (model c))%Z o)
      as [[Hw _] | [_ H]].
    - destruct Hw as (_ & Hd & _ & Hc). lia.
    - rewrite H. lia. }
  assert (Hcommit : forall (o : MoveOpts) (cb : option Callback),
             current_slide (model (moveToIndex index o cb c)) = index).
  { intros o cb. unfold moveToIndex.
    destruct (move_target c index) as [t |] eqn:E; [| congruence].
    rewrite <- (Hidx o) in E at 1.
    destruct (move_commits c _ o cb t Hm E) as (H & _).
    rewrite H. apply Hidx. }
  split; [apply Hcommit |].
  split; [| split; [| apply Hcommit]].
  - subst c'. unfold moveToIndex.
    rewrite (move_not_moving c _ opts callback Hm), Hidx.
    destruct (move_target c index) as [t |]; [| congruence].
    cbv zeta. destruct (nav _); reflexivity.
  - intros items Hn Hlen. subst c'. unfold moveToIndex.
    rewrite (move_not_moving c _ opts callback Hm), Hidx.
    destruct (move_target c index) as [t |]; [| congruence].
    cbv zeta. cbn [nav set_data set_model set_moving model current_slide
                     set_current_slide]. rewrite Hn.
    eexists. split; [reflexivity |].
    rewrite NavFacts.selected_setSelected. cbv zeta.
    unfold Nav.has_child.
    replace ((0 <=? index)%Z && (index <? Z.of_nat (length items))%Z)
      with true; [reflexivity |].
    symmetry. apply andb_true_iff. split;
      [apply Z.leb_le | apply Z.ltb_lt]; lia.
Qed.

(** The third item of the nav of three slides is chosen. *)
Lemma moveToIndex_commits_witness :
  current_slide (model (onNavChoose 2 9 three_slides)) = 2%Z
  /\ exists items,
       nav (moveToIndex 2 no_opts None three_slides) = Some items
       /\ Nav.selected_indices items = [2%Z].
Proof.
  destruct (moveToIndex_commits three_slides 2 no_opts None 9)
    as (_ & _ & H & Hc).
  - reflexivity.
  - vm_compute. repeat split; discriminate.
  - vm_compute. split; discriminate.
  - vm_compute. discriminate.
  - split; [exact Hc |].
    destruct (nav three_slides) as [items |] eqn:En; [| discriminate].
    apply (H items eq_refl).
    vm_compute in En. injection En as <-. reflexivity.
Defined.

Lemma invoke_nav (cb : Callback) :
  forall c : Carousel, nav (invoke cb c) = nav c.
Proof.
  induction cb as [id | | lid to k IH]; intro c; simpl; try reflexivity.
  rewrite IH. reflexivity.
Qed.

Lemma move_nav_synced (direction : Z) (opts : MoveOpts)
    (callback : option Callback) (c : Carousel) :
  in_range c -> nav_synced c ->
  nav_synced (move direction opts callback c).
Proof.
  intros [Hs Hr] Hn.
  assert (Hinv : forall cb c0, nav c0 = nav c -> model c0 = model c ->
                               nav_synced (invoke_opt cb c0)).
  { intros cb c0 E1 E2. unfold nav_synced.
    destruct cb as [f |]; simpl.
    - rewrite invoke_nav, (proj1 (proj2 (invoke_frame f c0))), E1, E2.
      exact Hn.
    - rewrite E1, E2. exact Hn. }
  unfold move. destruct (_moving c); [apply Hinv; reflexivity |].
  destruct (move_target _ _) as [t |]; [| apply Hinv; reflexivity].
  cbv zeta. rewrite target_index_set_moving.
  pose proof (target_index_range c direction opts Hs) as Hi.
  set (i := target_index c direction opts) in *.
  unfold nav_synced in *.
  cbn [nav set_data set_model set_moving model current_slide
         set_current_slide set_timers slides].
  destruct (nav c) as [items |] eqn:En;
    cbn [nav set_nav model set_model slides current_slide set_data
           set_moving set_current_slide set_timers];
    rewrite ?En;
    cbn [nav set_nav model set_model slides current_slide set_data
           set_moving set_current_slide set_timers];
    [| exact I].
  destruct Hn as [Hlen _].
  split; [rewrite setSelected_length; exact Hlen |].
  rewrite NavFacts.selected_setSelected. cbv zeta. unfold Nav.has_child.
  replace ((0 <=? i)%Z && (i <? Z.of_nat (length items))%Z)
    with true; [reflexivity |].
  symmetry. apply andb_true_iff. split;
    [apply Z.leb_le | apply Z.ltb_lt]; lia.
Qed.

Lemma _move_nav (to : Q) (b : bool) (c : Carousel) :
  nav (_move to b c) = nav c.
Proof. unfold _move. destruct (children c); destruct b; reflexivity. Qed.

Lemma run_delayed_nav_synced (d : Delayed) (c : Carousel) :
  in_range c -> nav_synced c -> nav_synced (run_delayed d c).
Proof.
  intros Hr Hn.
  assert (Hinv : forall cb c0, nav c0 = nav c -> model c0 = model c ->
                               nav_synced (invoke cb c0)).
  { intros cb c0 E1 E2. unfold nav_synced.
    rewrite invoke_nav, (proj1 (proj2 (invoke_frame cb c0))), E1, E2.
    exact Hn. }
  unfold run_delayed. cbv zeta.
  repeat match goal with
         | |- context [if ?b then _ else _] => destruct b
         end;
    try (apply move_nav_synced; assumption);
    try (apply Hinv;
         [rewrite ?_move_nav; reflexivity
         | rewrite ?(proj1 (_move_model _ _ _)); reflexivity]).
  all: unfold nav_synced; rewrite _move_nav, (proj1 (_move_model _ _ _));
    exact Hn.
Qed.

Lemma step_nav_synced (a : Action) (c : Carousel) :
  in_range c -> nav_synced c -> nav_synced (step a c).
Proof.
  intros Hr Hn. destruct a as [direction opts callback | |]; simpl.
  - apply move_nav_synced; assumption.
  - destruct (timers c) as [| d rest]; [exact Hn |].
    apply run_delayed_nav_synced; assumption.
  - revert Hr Hn. generalize (listeners c) as ls. intros ls. revert c.
    induction ls as [| l ls IH]; intros c Hr Hn; simpl; [exact Hn |].
    apply IH; [apply invoke_in_range, Hr |].
    unfold nav_synced.
    rewrite invoke_nav, (proj1 (proj2 (invoke_frame l c))). exact Hn.
Qed.

(** X10. The nav follows the carousel: on an instance attached with a
    nav (measures not negative), after any sequence of moves, delays and
    transition ends the nav has one item per slide and the selected item
    is the one of the current slide. *)
Theorem nav_follows (o : Options) (size scrollSize : Q) (kids : list Child)
    (l : list Action) :
  slide_size_wf (slide_size o) ->
  0 <= size -> 0 <= scrollSize ->
  Forall (fun ch => 0 <= width ch) kids ->
  let c := run l (attached o size scrollSize kids true) in
  exists items : Nav.t,
    nav c = Some items
    /\ Z.of_nat (length items) = slides (model c)
    /\ Nav.selected_indices items = [current_slide (model c)].
Proof.
  intros Hwf Hsize Htot Hw c.
  assert (H : in_range c /\ nav_synced c /\ nav c <> None).
  { subst c.
    assert (H0 : in_range (attached o size scrollSize kids true)
                 /\ nav_synced (attached o size scrollSize kids true)
                 /\ nav (attached o size scrollSize kids true) <> None).
    { pose proof (attached_in_range o size scrollSize kids true
                    Hwf Hsize Htot Hw) as Hr.
      split; [exact Hr |].
      unfold attached in *. rewrite calculate_eq in *.
      unfold nav_synced, in_range in *.
      cbn [nav model slides current_slide initialize] in *.
      split; [| discriminate].
      destruct Hr as [Hs _].
      split.
      - unfold Nav.update. rewrite setSelected_length,
          NavFacts.buttons_length. lia.
      - rewrite NavFacts.selected_update.
        replace (0 <? _)%Z with true; [reflexivity |].
        symmetry. apply Z.ltb_lt. lia. }
    revert H0. generalize (attached o size scrollSize kids true).
    unfold run. induction l as [| a l IH]; intros c0 (Hr & Hn & Hnav);
      simpl; [auto |].
    apply IH. split; [apply step_in_range, Hr |].
    split; [apply step_nav_synced; assumption |].
    pose proof (step_nav_synced a c0 Hr Hn) as Hn'.
    assert (Hk : forall c1 : Carousel,
               nav c1 <> None -> forall a1, nav (step a1 c1) <> None).
    { clear. intros c1 H1 a1.
      assert (Hmv : forall d o cb c2, nav c2 <> None ->
                                      nav (move d o cb c2) <> None).
      { intros d o cb c2 H2. unfold move.
        destruct (_moving c2).
        - destruct cb; simpl; rewrite ?invoke_nav; exact H2.
        - destruct (move_target _ _).
          + cbv zeta. simpl. destruct (nav c2); [discriminate | congruence].
          + destruct cb; simpl; rewrite ?invoke_nav; exact H2. }
      destruct a1 as [d o cb | |]; simpl.
      - apply Hmv, H1.
      - destruct (timers c1) as [| d0 rest]; [exact H1 |].
        unfold run_delayed. cbv zeta.
        repeat match goal with
               | |- context [if ?b then _ else _] => destruct b
               end;
          try apply Hmv; rewrite ?invoke_nav, ?_move_nav; exact H1.
      - revert H1. generalize (listeners c1) as ls. intros ls. revert c1.
        induction ls as [| l0 ls IHl]; intros c1 H1; simpl; [exact H1 |].
        apply IHl. rewrite invoke_nav. exact H1. }
    apply Hk, Hnav. }
  destruct H as (_ & Hn & Hnav).
  unfold nav_synced in Hn.
  destruct (nav c) as [items |]; [| congruence].
  exists items. split; [reflexivity | exact Hn].
Qed.

(** The nav of the carousel of four children after two completed
    [next()]. *)
Lemma nav_follows_witness :
  let c :=
    run [CallMove 1 no_opts None; DelayExpires; TransitionEnds;
         CallMove 1 no_opts None]
      (attached (mkOptions true SizeNull AlignLeft Sticky Multiple true)
         250 400 (lay_out 0 [100; 100; 100; 100]) true) in
  exists items : Nav.t,
    nav c = Some items
    /\ Z.of_nat (length items) = slides (model c)
    /\ Nav.selected_indices items = [current_slide (model c)].
Proof.
  apply nav_follows.
  - exact I.
  - vm_compute. discriminate.
  - vm_compute. discriminate.
  - repeat constructor; vm_compute; discriminate.
Defined.

(** ** One move in flight *)

Lemma invoke_not_moving (cb : Callback) :
  forall c : Carousel,
    _moving c = false -> listeners c = [] ->
    _moving (invoke cb c) = false
    /\ listeners (invoke cb c) = []
    /\ timers (invoke cb c) = timers c.
Proof.
  induction cb as [id | | lid to k IH]; intros c Hm Hl; simpl.
  - repeat split; assumption.
  - repeat split; assumption.
  - match goal with
    | |- context [invoke k ?x] =>
        destruct (IH x) as (H1 & H2 & H3);
        [reflexivity | simpl; rewrite Hl; reflexivity |]
    end.
    rewrite H1, H2, H3. repeat split.
Qed.

(** The [onTransitionEnd] closure clears the flag whatever it was. *)
Lemma invoke_transition_end (lid : nat) (to : Z) (k : Callback)
    (c : Carousel) :
  remove_listener lid (listeners c) = [] ->
  _moving (invoke (CbTransitionEnd lid to k) c) = false
  /\ listeners (invoke (CbTransitionEnd lid to k) c) = []
  /\ timers (invoke (CbTransitionEnd lid to k) c) = timers c.
Proof.
  intro Hl. cbn [invoke].
  match goal with
  | |- context [invoke k ?x] =>
      destruct (invoke_not_moving k x) as (H1 & H2 & H3);
      [reflexivity | simpl; exact Hl |]
  end.
  rewrite H1, H2, H3. repeat split.
Qed.

Lemma in_flight_cases (c : Carousel) :
  in_flight c ->
  (timers c = [] /\ listeners c = [] /\ _moving c = false)
  \/ (exists d, timers c = [d] /\ listeners c = [] /\ _moving c = true)
  \/ (exists lid to k,
         timers c = [] /\ listeners c = [CbTransitionEnd lid to k]
         /\ _moving c = true).
Proof.
  unfold in_flight.
  destruct (timers c) as [| d [| d2 ts]];
    destruct (listeners c) as [| [i | | lid to k] [| l2 ls]];
    intro H; try contradiction.
  - left. repeat split. exact H.
  - right. right. exists lid, to, k. repeat split. exact H.
  - right. left. exists d. repeat split. exact H.
Qed.

Lemma in_flight_idle (c : Carousel) :
  timers c = [] -> listeners c = [] -> _moving c = false -> in_flight c.
Proof. intros Ht Hl Hm. unfold in_flight. rewrite Ht, Hl. exact Hm. Qed.

(** A [move] on an idle instance leaves it idle or with its delay. *)
Lemma move_in_flight (direction : Z) (opts : MoveOpts)
    (callback : option Callback) (c : Carousel) :
  timers c = [] -> listeners c = [] -> _moving c = false ->
  in_flight (move direction opts callback c).
Proof.
  intros Ht Hl Hm.
  destruct (move_target c (target_index c direction opts)) as [t |] eqn:E.
  - destruct (move_commits c direction opts callback t Hm E)
      as (_ & _ & _ & _ & Htm & Hmv & Hls & _).
    unfold in_flight. rewrite Htm, Hls, Ht, Hl. exact Hmv.
  - rewrite (move_not_moving c direction opts callback Hm), E.
    destruct callback as [f |]; simpl.
    + destruct (invoke_not_moving f c Hm Hl) as (H1 & H2 & H3).
      apply in_flight_idle; [rewrite H3; exact Ht | exact H2 | exact H1].
    + apply in_flight_idle; assumption.
Qed.

Lemma run_delayed_in_flight (d : Delayed) (c : Carousel) :
  timers c = [] -> listeners c = [] -> _moving c = true ->
  in_flight (run_delayed d c).
Proof.
  intros Ht Hl Hm. unfold run_delayed.
  set (c0 := set_listeners (listeners c) (S (next_listener c)) c).
  set (onTE := CbTransitionEnd (next_listener c) (d_thisSlide d)
                 (d_callback d)).
  cbv zeta.
  assert (Hfin : forall c1 : Carousel,
             timers c1 = [] -> listeners c1 = [] ->
             in_flight (invoke onTE c1)).
  { intros c1 Ht1 Hl1. unfold onTE.
    destruct (invoke_transition_end (next_listener c) (d_thisSlide d)
                (d_callback d) c1) as (H1 & H2 & H3).
    - rewrite Hl1. reflexivity.
    - apply in_flight_idle; [rewrite H3; exact Ht1 | exact H2 | exact H1]. }
  destruct (Qeq_bool (getCurrentOffset true c0) (- d_target d)); cbn [negb].
  - match goal with
    | |- context [if ?b then move _ _ _ _ else _] => destruct b
    end.
    + apply move_in_flight; [exact Ht | exact Hl | reflexivity].
    + apply Hfin; assumption.
  - destruct (has_transitionend (options c)); cbn [negb].
    + match goal with
      | |- context [_move ?t ?b ?x] =>
          destruct (_move_rest t b x) as (M1 & M2 & _ & M4)
      end.
      unfold in_flight. rewrite M1, M2, M4. simpl. rewrite Ht, Hl. exact Hm.
    + match goal with
      | |- context [_move ?t ?b ?x] =>
          destruct (_move_rest t b x) as (M1 & M2 & _ & _)
      end.
      apply Hfin; [rewrite M1; exact Ht | rewrite M2; exact Hl].
Qed.

Lemma step_in_flight (a : Action) (c : Carousel) :
  caller_action a -> in_flight c -> in_flight (step a c).
Proof.
  intros Ha Hc.
  destruct (in_flight_cases c Hc)
    as [(Ht & Hl & Hm) | [(d & Ht & Hl & Hm)
                        | (lid & to & k & Ht & Hl & Hm)]];
    destruct a as [direction opts callback | |]; cbn [step];
    rewrite ?Ht, ?Hl; cbn [fold_left]; try exact Hc.
  - apply move_in_flight; assumption.
  - unfold move. rewrite Hm.
    destruct callback as [[i | | ? ? ?] |]; simpl in Ha |- *;
      try contradiction; exact Hc.
  - apply run_delayed_in_flight; [reflexivity | exact Hl | exact Hm].
  - unfold move. rewrite Hm.
    destruct callback as [[i | | ? ? ?] |]; simpl in Ha |- *;
      try contradiction; exact Hc.
  - destruct (invoke_transition_end lid to k c) as (H1 & H2 & H3).
    + rewrite Hl. simpl. rewrite Nat.eqb_refl. reflexivity.
    + apply in_flight_idle; [rewrite H3; exact Ht | exact H2 | exact H1].
Qed.

(** X11. On an attached instance driven by callers and the host, at most
    one delay or one [transitionend] listener is pending at any time, and
    the moving flag is set exactly while one is: a move is dropped only
    while another one is in flight, and an instance with nothing pending
    accepts the next move. *)
Theorem one_move_in_flight (o : Options) (size scrollSize : Q)
    (kids : list Child) (with_nav : bool) (l : list Action) :
  Forall caller_action l ->
  let c := run l (attached o size scrollSize kids with_nav) in
  (length (timers c) + length (listeners c) <= 1)%nat
  /\ (_moving c = true <-> timers c <> [] \/ listeners c <> []).
Proof.
  intros Hl c.
  assert (H : in_flight c).
  { subst c.
    assert (H0 : in_flight (attached o size scrollSize kids with_nav)).
    { unfold attached. rewrite calculate_eq. exact eq_refl. }
    revert H0. generalize (attached o size scrollSize kids with_nav).
    unfold run. induction Hl as [| a l Ha Hl IH]; intros c0 H0; simpl;
      [exact H0 |].
    apply IH, step_in_flight; assumption. }
  destruct (in_flight_cases c H)
    as [(Ht & Hls & Hm) | [(d & Ht & Hls & Hm)
                         | (lid & to & k & Ht & Hls & Hm)]];
    rewrite Ht, Hls, Hm; simpl; split; try lia; split;
    try discriminate; try (intros [? | ?]; congruence); intros _.
  - left. discriminate.
  - right. discriminate.
Qed.

(** A [next()] in flight, a second one dropped, the first one completed. *)
Lemma one_move_in_flight_witness :
  let c :=
    run [CallMove 1 no_opts None; CallMove 1 no_opts (Some (CbUser 1));
         DelayExpires]
      (attached default_options 300 900 (lay_out 0 [300; 300; 300]) true) in
  (length (timers c) + length (listeners c) <= 1)%nat
  /\ (_moving c = true <-> timers c <> [] \/ listeners c <> []).
Proof.
  apply one_move_in_flight. repeat constructor.
Defined.

(** ** fix and resize *)

Lemma calculate_slides_positive (c : Carousel) :
  slide_size_wf (slide_size (options c)) ->
  0 <= element_size c -> 0 <= element_scroll_size c ->
  Forall (fun ch => 0 <= width ch) (children c) ->
  (1 <= slides (model (calculate c)))%Z.
Proof.
  intros Hwf Hsize Htot Hw.
  destruct (calculate_model c) as (Hs & _). cbv zeta in Hs. rewrite Hs.
  apply count_slides_positive; [exact Htot |].
  apply resolved_size_nonneg; assumption.
Qed.

(** In single-flex mode every slide of a calculated instance with a child
    has a child. *)
Lemma calculate_flex_child (c : Carousel) (i : Z) :
  slide_size (options c) = SizeNull ->
  slide_mode (options c) = SingleFlex ->
  children c <> [] ->
  (0 <= i <= slides (model (calculate c)) - 1)%Z ->
  child_at i (children c) <> None.
Proof.
  intros Hs Hm Hc Hi.
  destruct (calculate_model c) as (Hn & _). cbv zeta in Hn.
  rewrite Hn in Hi. unfold count_slides in Hi. rewrite Hs, Hm in Hi.
  cbn [is_null contains_single andb] in Hi.
  assert (Hlen : (i < Z.of_nat (length (children c)))%Z).
  { destruct (children c) as [| first rest]; [congruence |].
    cbn [length] in *.
    destruct (Qeq_bool _ 0 || _); lia. }
  unfold child_at.
  replace (i <? 0)%Z with false by (symmetry; apply Z.ltb_ge; lia).
  apply nth_error_Some. lia.
Qed.

(** X12. [fix()] on an instance that is not moving brings the current
    slide back among the slides after the element changed (measures not
    negative): the slide count is computed anew and the current slide is
    clamped to it. The one exception is single-flex mode without
    children, where the move has no child to go to. *)
Theorem fix_restores_range (c : Carousel) :
  _moving c = false ->
  slide_size_wf (slide_size (options c)) ->
  0 <= element_size c -> 0 <= element_scroll_size c ->
  Forall (fun ch => 0 <= width ch) (children c) ->
  (is_null (slide_size (options c)) && is_single_flex (slide_mode (options c))
   = true -> children c <> []) ->
  let n := slides (model (calculate c)) in
  slides (model (fix_ c)) = n
  /\ (1 <= n)%Z
  /\ current_slide (model (fix_ c))
     = Z.min (Z.max (current_slide (model c)) 0) (n - 1).
Proof.
  intros Hm Hwf Hsize Htot Hw Hflex n. subst n.
  pose proof (calculate_slides_positive c Hwf Hsize Htot Hw) as Hpos.
  set (c1 := calculate c) in *.
  assert (Hm1 : _moving c1 = false)
    by (subst c1; rewrite calculate_eq; exact Hm).
  assert (Ho1 : options c1 = options c)
    by (subst c1; rewrite calculate_eq; reflexivity).
  assert (Hc1 : children c1 = children c)
    by (subst c1; rewrite calculate_eq; reflexivity).
  assert (Hcur : current_slide (model c1) = current_slide (model c))
    by (subst c1; rewrite calculate_eq; reflexivity).
  assert (Hidx : target_index c1 0 no_opts
                 = Z.min (Z.max (current_slide (model c)) 0)
                     (slides (model c1) - 1)).
  { destruct (target_index_cases c1 0 no_opts) as [[Hw0 _] | [_ H]].
    - destruct Hw0 as (_ & Hd & _). discriminate.
    - rewrite H, Hcur. f_equal. f_equal. lia. }
  assert (Ht : move_target c1 (target_index c1 0 no_opts) <> None).
  { unfold move_target, raw_target. rewrite Ho1.
    destruct (is_null (slide_size (options c))
              && is_single_flex (slide_mode (options c))) eqn:E;
      [| discriminate].
    apply andb_true_iff in E. destruct E as [E1 E2].
    assert (Hs : slide_size (options c) = SizeNull)
      by (destruct (slide_size (options c)); try discriminate; reflexivity).
    assert (Hmo : slide_mode (options c) = SingleFlex)
      by (destruct (slide_mode (options c)); try discriminate; reflexivity).
    unfold flex_target. rewrite Hc1.
    pose proof (calculate_flex_child c (target_index c1 0 no_opts) Hs Hmo
                  (Hflex eq_refl)) as Hch.
    destruct (child_at _ (children c)); [discriminate |].
    exfalso. apply Hch; [| reflexivity].
    fold c1. rewrite Hidx. lia. }
  unfold fix_. fold c1.
  destruct (move_target c1 (target_index c1 0 no_opts)) as [t |] eqn:E;
    [| congruence].
  destruct (move_commits c1 0 no_opts None t Hm1 E) as (H1 & H2 & _).
  rewrite H1, H2, Hidx. repeat split. exact Hpos.
Qed.

(** The three slides at rest on the last one lose two children: the
    element is 300px wide with one child, and [fix()] goes to slide 0. *)
Lemma fix_restores_range_witness :
  let c := remeasure 300 300 (lay_out 0 [300]) (three_slides_at 2) in
  current_slide (model c) = 2%Z
  /\ slides (model (fix_ c)) = 1%Z
  /\ current_slide (model (fix_ c)) = 0%Z.
Proof.
  intro c.
  destruct (fix_restores_range c) as (H1 & _ & H2).
  - reflexivity.
  - exact I.
  - vm_compute. discriminate.
  - vm_compute. discriminate.
  - repeat constructor; vm_compute; discriminate.
  - intro H. vm_compute in H. discriminate.
  - split; [reflexivity |].
    split; [rewrite H1; reflexivity | rewrite H2; reflexivity].
Defined.

(** [calculate] keeps the raw offset and records it. *)
Lemma calculate_offset (c : Carousel) :
  getCurrentOffset true (calculate c) = getCurrentOffset true c
  /\ getCurrentOffset false (calculate c) = getCurrentOffset true c.
Proof.
  rewrite calculate_eq. split; [| reflexivity].
  unfold getCurrentOffset at 1.
  cbn [children style_offset currentOffset].
  destruct (children c) as [| first rest] eqn:Ec.
  - unfold getCurrentOffset. rewrite Ec. reflexivity.
  - destruct (Qeq_bool (getCurrentOffset true c) 0); reflexivity.
Qed.

(** X13. The delayed part of [onWindowResize], whatever the instance was
    doing and whatever the element became (measures not negative), leaves
    the carousel on slide 0 of at least one slide, at offset 0. *)
Theorem resize_resets (c : Carousel) :
  slide_size_wf (slide_size (options c)) ->
  0 <= element_size c -> 0 <= element_scroll_size c ->
  Forall (fun ch => 0 <= width ch) (children c) ->
  let c' := onWindowResize c in
  current_slide (model c') = 0%Z
  /\ (1 <= slides (model c'))%Z
  /\ getCurrentOffset true c' = 0
  /\ getCurrentOffset false c' = 0.
Proof.
  intros Hwf Hsize Htot Hw c'. subst c'. unfold onWindowResize. cbv zeta.
  set (c0 := set_model (set_current_slide 0 (model (_move 0 true c)))
               (_move 0 true c)).
  assert (Hgeo : options c0 = options c /\ element_size c0 = element_size c
                 /\ element_scroll_size c0 = element_scroll_size c
                 /\ children c0 = children c).
  { subst c0. unfold _move. destruct (children c) eqn:Ec; simpl;
      rewrite ?Ec; repeat split; reflexivity. }
  destruct Hgeo as (G1 & G2 & G3 & G4).
  assert (Hpos : (1 <= slides (model (calculate c0)))%Z).
  { apply calculate_slides_positive; rewrite ?G1, ?G2, ?G3, ?G4;
      assumption. }
  assert (Hraw0 : getCurrentOffset true c0 = 0).
  { subst c0. unfold getCurrentOffset, _move.
    destruct (children c) eqn:Ec; simpl; rewrite Ec; reflexivity. }
  set (c1 := calculate c0) in *.
  assert (Hcur1 : current_slide (model c1) = 0%Z)
    by (subst c1; rewrite calculate_eq; reflexivity).
  assert (Hoff1 : getCurrentOffset true c1 = 0
                  /\ getCurrentOffset false c1 = 0).
  { subst c1. destruct (calculate_offset c0) as [H1 H2].
    rewrite H1, H2, Hraw0. split; reflexivity. }
  pose proof (move_frame 0 no_opts None c1) as Hfr.
  rewrite !(same_geometry_offset _ _ _ Hfr).
  destruct Hfr as (_ & _ & _ & _ & Hsl & _). rewrite Hsl.
  split; [| split; [exact Hpos | exact Hoff1]].
  destruct (_moving c1) eqn:Hm1.
  - unfold move. rewrite Hm1. exact Hcur1.
  - destruct (move_target c1 (target_index c1 0 no_opts)) as [t |] eqn:E.
    + destruct (move_commits c1 0 no_opts None t Hm1 E) as (H1 & _).
      rewrite H1, (target_index_zero c1 no_opts); [exact Hcur1 |].
      rewrite Hcur1. lia.
    + rewrite (move_not_moving c1 0 no_opts None Hm1), E. exact Hcur1.
Qed.

(** The window is resized while the three slides are on their way to the
    last one: the stage is now 250px wide. *)
Lemma resize_resets_witness :
  let c := remeasure 250 900 (lay_out 0 [300; 300; 300])
             (moveToIndex 2 no_opts None three_slides) in
  _moving c = true
  /\ current_slide (model c) = 2%Z
  /\ current_slide (model (onWindowResize c)) = 0%Z
  /\ getCurrentOffset true (onWindowResize c) = 0.
Proof.
  intro c.
  destruct (resize_resets c) as (H1 & _ & H2 & _).
  - exact I.
  - vm_compute. discriminate.
  - vm_compute. discriminate.
  - repeat constructor; vm_compute; discriminate.
  - repeat split; assumption.
Defined.

(** ** Touch: what a gesture can and cannot do *)

Lemma _move_unrecorded (to : Q) (c : Carousel) :
  model (_move to false c) = model c
  /\ currentOffset (_move to false c) = currentOffset c
  /\ _moving (_move to false c) = _moving c
  /\ timers (_move to false c) = timers c
  /\ listeners (_move to false c) = listeners c
  /\ trace (_move to false c) = trace c
  /\ nav (_move to false c) = nav c
  /\ options (_move to false c) = options c
  /\ children (_move to false c) = children c.
Proof.
  unfold _move. destruct (children c) eqn:E; simpl; rewrite ?E;
    repeat split; reflexivity.
Qed.

(** What [onTouchMove] leaves alone. *)
Lemma onTouchMove_frame (e : TouchEvent) (g : Gesture) (c : Carousel) :
  let c' := snd (onTouchMove e g c) in
  model c' = model c
  /\ currentOffset c' = currentOffset c
  /\ _moving c' = _moving c
  /\ timers c' = timers c
  /\ listeners c' = listeners c
  /\ trace c' = trace c
  /\ nav c' = nav c
  /\ options c' = options c
  /\ children c' = children c.
Proof.
  destruct g as [sc sx sy rl rr dl isc].
  unfold onTouchMove.
  cbn [start_scroll start_x start_y resistanceTargetLeft
         resistanceTargetRight delta isScrolling].
  destruct (_ || _); [cbn [snd]; repeat split |].
  destruct (_ || _); [| cbn [snd]; repeat split].
  destruct isc as [[|] |]; cbn [isScrolling].
  - cbn [snd]. repeat split.
  - destruct (resistance c _ _) as [g' t]. cbn [snd].
    apply _move_unrecorded.
  - destruct (Qlt_bool _ _); cbn [isScrolling].
    + cbn [snd]. repeat split.
    + destruct (resistance c _ _) as [g' t]. cbn [snd].
      apply _move_unrecorded.
Qed.

(** What the move events of a gesture leave alone. *)
Lemma drag_frame (es : list TouchEvent) :
  forall (g : Gesture) (c : Carousel),
    let c' := snd (drag es g c) in
    model c' = model c
    /\ getCurrentOffset false c' = getCurrentOffset false c
    /\ _moving c' = _moving c
    /\ timers c' = timers c
    /\ listeners c' = listeners c
    /\ trace c' = trace c
    /\ nav c' = nav c.
Proof.
  induction es as [| e es IH]; intros g c; cbn [drag].
  - cbn [snd]. repeat split.
  - pose proof (onTouchMove_frame e g c) as H. cbv zeta in H.
    destruct (onTouchMove e g c) as [g1 c1]. cbn [snd] in H.
    specialize (IH g1 c1). cbv zeta in IH.
    destruct H as (H1 & H2 & H3 & H4 & H5 & H6 & H7 & _).
    destruct IH as (I1 & I2 & I3 & I4 & I5 & I6 & I7).
    unfold getCurrentOffset in *.
    rewrite I1, I2, I3, I4, I5, I6, I7, H1, H2, H3, H4, H5, H6, H7.
    repeat split.
Qed.

(** X14. A drag goes past the motion controller: whatever the move events
    of a gesture are, they change nothing of the instance but the
    transform of the children -- not the current slide, not the model,
    not the recorded offset, not the moving flag, not the pending work,
    and no event is fired. *)
Theorem drag_only_transforms (es : list TouchEvent) :
  forall (g : Gesture) (c : Carousel),
    let c' := snd (drag es g c) in
    model c' = model c
    /\ getCurrentOffset false c' = getCurrentOffset false c
    /\ _moving c' = _moving c
    /\ timers c' = timers c
    /\ listeners c' = listeners c
    /\ trace c' = trace c
    /\ nav c' = nav c.
Proof. exact (drag_frame es). Qed.

Lemma onTouchMove_latch (e : TouchEvent) (g : Gesture) (c : Carousel)
    (b : bool) :
  isScrolling g = Some b ->
  isScrolling (fst (onTouchMove e g c)) = Some b
  /\ (b = true -> snd (onTouchMove e g c) = c).
Proof.
  intro H. destruct g as [sc sx sy rl rr dl isc].
  cbn [isScrolling] in H. subst isc.
  unfold onTouchMove.
  cbn [start_scroll start_x start_y resistanceTargetLeft
         resistanceTargetRight delta isScrolling].
  destruct (_ || _); [cbn [fst snd isScrolling]; auto |].
  destruct (_ || _); [| cbn [fst snd isScrolling]; auto].
  destruct b; cbn [isScrolling].
  - cbn [fst snd isScrolling]. auto.
  - unfold resistance.
    cbn [start_scroll start_x start_y resistanceTargetLeft
           resistanceTargetRight delta isScrolling].
    repeat match goal with
           | |- context [if ?x then _ else _] => destruct x
           end; cbn [fst snd isScrolling]; split; auto; discriminate.
Qed.

(** X15. A gesture is classified once: after the first move event past
    the dead zone decided between page scroll and swipe, no later event
    changes the decision, and the move events of a page scroll never
    touch the carousel. *)
Theorem gesture_classified_once (es : list TouchEvent) :
  forall (g : Gesture) (c : Carousel) (b : bool),
    isScrolling g = Some b ->
    isScrolling (fst (drag es g c)) = Some b
    /\ (b = true -> snd (drag es g c) = c).
Proof.
  induction es as [| e es IH]; intros g c b H; cbn [drag].
  - cbn [fst snd]. auto.
  - destruct (onTouchMove_latch e g c b H) as [H1 H2].
    destruct (onTouchMove e g c) as [g1 c1]. cbn [fst snd] in H1, H2.
    destruct (IH g1 c1 b H1) as [I1 I2].
    split; [exact I1 |].
    intro Hb. rewrite (I2 Hb). apply H2, Hb.
Qed.

(** A gesture that goes down by 10px first and then left by 200px. *)
Lemma gesture_classified_once_witness :
  let c := three_slides in
  let s1 := onTouchMove (single_touch 2 10) (touch_start 0 0 0) c in
  let s := drag [single_touch (- (100)) 12; single_touch (- (200)) 15]
             (fst s1) (snd s1) in
  isScrolling (fst s1) = Some true
  /\ isScrolling (fst s) = Some true
  /\ snd s = snd s1.
Proof.
  intros c s1 s.
  assert (H : isScrolling (fst s1) = Some true) by reflexivity.
  destruct (gesture_classified_once
              [single_touch (- (100)) 12; single_touch (- (200)) 15]
              (fst s1) (snd s1) true H) as [H1 H2].
  split; [exact H |]. split; [exact H1 | apply H2; reflexivity].
Defined.




(** X17. A swipe that [onTouchEnd] commits goes to the neighbouring slide
    against the direction of the finger -- to the next one for a drag to
    the left, to the previous one otherwise -- and stops at the ends: a
    touch never wraps from the last slide to the first, loop or not. *)
Theorem swipe_commits_neighbour (elapsed : Q) (restart : nat) (g : Gesture)
    (c : Carousel) (dx dy : Q) :
  canMove elapsed g c = true ->
  delta g = Some (dx, dy) ->
  _moving c = false ->
  in_range c ->
  is_null (slide_size (options c)) && is_single_flex (slide_mode (options c))
  = false ->
  current_slide (model (onTouchEnd elapsed restart g c))
  = if Qlt_bool dx 0
    then Z.min (current_slide (model c) + 1) (slides (model c) - 1)
    else Z.max (current_slide (model c) - 1) 0.
Proof.
  intros Hcan Hd Hm [Hs Hr] Hmode.
  unfold onTouchEnd. rewrite Hcan, Hd.
  set (dir := if Qlt_bool dx 0 then 1%Z else (-1)%Z).
  assert (Ht : exists t, move_target c (target_index c dir touch_opts)
                         = Some t).
  { unfold move_target, raw_target. rewrite Hmode. eexists. reflexivity. }
  destruct Ht as [t Ht].
  destruct (move_commits c dir touch_opts (Some (CbUser restart)) t Hm Ht)
    as (H1 & _).
  rewrite H1.
  destruct (target_index_cases c dir touch_opts) as [[Hw _] | [_ H]].
  - destruct Hw as (_ & _ & He & _). discriminate He.
  - rewrite H. subst dir. destruct (Qlt_bool dx 0); lia.
Qed.

(** A quick swipe to the left on the last of three slides, with loop
    enabled: the carousel stays on the last slide. *)
Lemma swipe_commits_neighbour_witness :
  let c := three_slides_at 2 in
  let s := drag [single_touch (- (30)) 0] (touch_start 600 0 0) c in
  loop (options c) = true
  /\ current_slide (model (onTouchEnd 100 0 (fst s) (snd s))) = 2%Z.
Proof.
  intros c s. split; [reflexivity |].
  rewrite (swipe_commits_neighbour 100 0 (fst s) (snd s) (- (30) - 0)
             (0 - 0)).
  - reflexivity.
  - reflexivity.
  - reflexivity.
  - reflexivity.
  - vm_compute. repeat split; discriminate.
  - reflexivity.
Defined.

(** ** Carousel.Nav: the buttons *)

Lemma buttons_text (fuel : nat) :
  forall i : Z,
    map Nav.text (Nav.buttons fuel i)
    = map (fun k => (i + Z.of_nat k)%Z) (seq 0 fuel).
Proof.
  induction fuel as [| f IH]; intro i; simpl; [reflexivity |].
  rewrite IH, <- seq_shift, map_map. f_equal; [f_equal; lia |].
  apply map_ext. intro k. lia.
Qed.

Lemma setSelected_text (index : option Z) (items : Nav.t) :
  map Nav.text (Nav.setSelected index items) = map Nav.text items.
Proof.
  unfold Nav.setSelected. cbv zeta.
  assert (H1 : map Nav.text (Nav.removeClass items) = map Nav.text items).
  { unfold Nav.removeClass. rewrite map_map. reflexivity. }
  assert (H2 : forall (l : Nav.t) (j : nat),
             map Nav.text (Nav.addClassAt j l) = map Nav.text l).
  { induction l as [| it rest IH]; intros [| j]; simpl; try reflexivity.
    rewrite IH. reflexivity. }
  destruct (Nav.has_child _ _); rewrite ?H2; exact H1.
Qed.

(** X18. [update(n)] rebuilds the nav from nothing: whatever buttons it
    had, it then has exactly [n] buttons (none for [n <= 0]) labelled 0 to
    [n-1] in order; and [setSelected] never adds, removes or relabels a
    button. *)
Theorem nav_update_rebuilds (n : Z) (index : option Z) (items : Nav.t) :
  map Nav.text (Nav.update n items)
  = map Z.of_nat (seq 0 (Z.to_nat n))
  /\ length (Nav.update n items) = Z.to_nat n
  /\ map Nav.text (Nav.setSelected index items) = map Nav.text items.
Proof.
  split; [| split].
  - unfold Nav.update. rewrite setSelected_text, buttons_text.
    apply map_ext. intro k. lia.
  - unfold Nav.update.
    rewrite setSelected_length. apply NavFacts.buttons_length.
  - apply setSelected_text.
Qed.

(** ** Special geometries *)

(** X19. An element without children, with no configured slide size and
    nothing to scroll, is one slide as wide as the stage, with no offset
    on either side. *)
Theorem empty_element_one_slide (c : Carousel) :
  slide_size (options c) = SizeNull ->
  children c = [] ->
  0 <= element_scroll_size c ->
  element_scroll_size c <= element_size c ->
  let m := model (calculate c) in
  slides m = 1%Z
  /\ slide_width c == element_size c
  /\ slide_offset_left m == 0
  /\ slide_offset_right m == 0.
Proof.
  intros Hs Hc Ht Hle m. subst m.
  assert (Hw : slide_width c == element_size c).
  { unfold slide_width, raw_slide_size. rewrite Hs, Hc.
    unfold resolve_size, inject_Z. field. }
  destruct (calculate_model c) as (Hn & _ & _ & _ & Hl & Hr).
  cbv zeta in Hn, Hl, Hr. fold (slide_width c) in Hn, Hl, Hr.
  rewrite Hn, Hl, Hr.
  split; [| split; [exact Hw | split]].
  - unfold count_slides. rewrite Hs, Hc. cbn [is_null andb length].
    destruct (contains_single (slide_mode (options c)));
      [rewrite orb_true_r; reflexivity |].
    destruct (Qeq_bool (slide_width c) 0) eqn:E0; [reflexivity |].
    apply Qeq_bool_neq in E0. cbn [orb]. unfold Math_ceil.
    assert (Hpos : 0 < slide_width c) by lra.
    assert (H0 : (0 <= Qceiling (element_scroll_size c / slide_width c))%Z).
    { change 0%Z with (Qceiling 0). apply Qceiling_resp_le.
      apply Qle_shift_div_l; lra. }
    assert (H1 : (Qceiling (element_scroll_size c / slide_width c) <= 1)%Z).
    { change 1%Z with (Qceiling 1). apply Qceiling_resp_le.
      apply Qle_shift_div_r; lra. }
    destruct (Qceiling (element_scroll_size c / slide_width c) =? 0)%Z
      eqn:E; [reflexivity |].
    apply Z.eqb_neq in E. lia.
  - unfold slide_offsets.
    destruct (slide_alignment (options c)); cbn [fst]; rewrite ?Hw;
      try reflexivity; field.
  - unfold slide_offsets.
    destruct (slide_alignment (options c)); cbn [snd]; rewrite ?Hw;
      try reflexivity; field.
Qed.

(** An empty list of 300px in multiple mode. *)
Lemma empty_element_one_slide_witness :
  slides (model (attached default_options 300 300 [] true)) = 1%Z.
Proof.
  apply (empty_element_one_slide
           (initialize default_options 300 300 [] true));
    try reflexivity; vm_compute; discriminate.
Defined.

Lemma calculate_offsets_nonneg (c : Carousel) :
  slide_width c <= element_size c ->
  0 <= slide_offset_left (model (calculate c))
  /\ 0 <= slide_offset_right (model (calculate c)).
Proof.
  intro Hle.
  destruct (calculate_model c) as (_ & _ & _ & _ & Hl & Hr).
  cbv zeta in Hl, Hr. fold (slide_width c) in Hl, Hr. rewrite Hl, Hr.
  unfold slide_offsets.
  assert (Hh : 0 <= (element_size c - slide_width c) / 2)
    by (apply Qle_shift_div_l; lra).
  destruct (slide_alignment (options c)); cbn [fst snd]; split; lra.
Qed.

(** X20. With sticky ends, a slide count that divides the total size, a
    slide that has a width and is not wider than the stage, and a stage
    that is not wider than the content: the first slide starts where the
    content starts (target 0) and the last slide ends where the content
    ends (target total size minus stage size). *)
Theorem sticky_ends_flush (c : Carousel) :
  is_sticky (slide_ends_alignment (options c)) = true ->
  is_null (slide_size (options c)) && contains_single (slide_mode (options c))
  = false ->
  0 < slide_width c ->
  slide_width c <= element_size c ->
  element_size c <= element_scroll_size c ->
  let c' := calculate c in
  sticky_clamp c' (fixed_target c' 0) == 0
  /\ sticky_clamp c' (fixed_target c' (slides (model c') - 1))
     == element_scroll_size c - element_size c.
Proof.
  intros Hst Hmode Hw Hle Htot c'. subst c'.
  destruct (calculate_offsets_nonneg c Hle) as [HL HR].
  pose proof (calculate_offsets_sum c) as Hsum.
  assert (Ho : options (calculate c) = options c)
    by (rewrite calculate_eq; reflexivity).
  destruct (calculate_model c) as (Hn & _ & Hstage & Htotal & _).
  cbv zeta in Hn. fold (slide_width c) in Hn.
  assert (Ht0 : 0 < element_scroll_size c) by lra.
  rewrite (count_slides_ceil _ _ _ _ Hmode Hw Ht0) in Hn.
  destruct (ceil_cover _ _ Hw Ht0) as (_ & Hcov & _).
  rewrite <- Hn in Hcov.
  unfold sticky_clamp. rewrite Ho, Hst. cbv zeta.
  rewrite Hstage, Htotal. rewrite Hstage in Hsum.
  set (hi := element_scroll_size c - element_size c).
  assert (Hhi : 0 <= hi) by (subst hi; lra).
  split.
  - pose proof (calculate_target_eq c 0) as H0.
    set (t0 := fixed_target (calculate c) 0) in *.
    assert (Ht : t0 <= 0).
    { rewrite H0. change (inject_Z 0) with 0. lra. }
    destruct (Qlt_bool t0 0) eqn:E1.
    + destruct (Qlt_bool hi 0) eqn:E2; [| reflexivity].
      apply Qlt_bool_true in E2. lra.
    + apply Qlt_bool_false in E1.
      destruct (Qlt_bool hi t0) eqn:E2.
      * apply Qlt_bool_true in E2. lra.
      * lra.
  - pose proof (calculate_target_eq c (slides (model (calculate c)) - 1))
      as H1.
    set (n := slides (model (calculate c))) in *.
    set (t1 := fixed_target (calculate c) (n - 1)) in *.
    assert (Hexp : inject_Z (n - 1) * slide_width c
                   == inject_Z n * slide_width c - slide_width c).
    { replace (n - 1)%Z with (n + -1)%Z by lia.
      rewrite inject_Z_plus. unfold inject_Z at 2. ring. }
    assert (Ht : hi <= t1).
    { rewrite H1, Hexp. subst hi. lra. }
    destruct (Qlt_bool t1 0) eqn:E1.
    + apply Qlt_bool_true in E1. lra.
    + destruct (Qlt_bool hi t1) eqn:E2; [reflexivity |].
      apply Qlt_bool_false in E2. lra.
Qed.

(** The four children of 100px in a stage of 250px: slide 0 at 0 and
    slide 1 at 150. *)
Lemma sticky_ends_flush_witness :
  sticky_clamp four_children (fixed_target four_children 0) == 0
  /\ sticky_clamp four_children
       (fixed_target four_children (slides (model four_children) - 1))
     == 400 - 250.
Proof.
  apply (sticky_ends_flush
           (initialize (mkOptions true SizeNull AlignLeft Sticky Multiple
                          true) 250 400 (lay_out 0 [100; 100; 100; 100])
              true));
    try reflexivity; vm_compute; discriminate.
Defined.

(** ** Completed moves *)

Lemma settle_in_flight (fuel : nat) :
  forall c : Carousel, in_flight c -> in_flight (settle fuel c).
Proof.
  induction fuel as [| f IH]; intros c H; cbn [settle]; [exact H |].
  destruct (timers c) as [| d ts] eqn:Ht.
  - destruct (listeners c) as [| l ls] eqn:Hl; [exact H |].
    apply IH, step_in_flight; [exact I | exact H].
  - apply IH, step_in_flight; [exact I | exact H].
Qed.

(** Without single slides the delayed part of a move never issues a
    further move: the model stays as the move left it. *)
Lemma run_delayed_model (d : Delayed) (c : Carousel) :
  contains_single (slide_mode (options c)) = false ->
  model (run_delayed d c) = model c
  /\ options (run_delayed d c) = options c.
Proof.
  intro Hmode. unfold run_delayed. cbv zeta.
  cbn [options set_listeners]. rewrite Hmode.
  rewrite andb_false_r. cbn [andb].
  assert (Hinv : forall cb c1, model (invoke cb c1) = model c1
                               /\ options (invoke cb c1) = options c1).
  { intros cb c1. destruct (invoke_frame cb c1) as ((Ho & _) & Hm & _).
    split; assumption. }
  repeat match goal with
         | |- context [if ?b then _ else _] => destruct b
         end;
    rewrite ?(proj1 (Hinv _ _)), ?(proj2 (Hinv _ _)),
      ?(proj1 (_move_model _ _ _)),
      ?(proj1 (proj2 (_move_model _ _ _)));
    split; reflexivity.
Qed.

Lemma settle_model (fuel : nat) :
  forall c : Carousel,
    contains_single (slide_mode (options c)) = false ->
    model (settle fuel c) = model c /\ options (settle fuel c) = options c.
Proof.
  induction fuel as [| f IH]; intros c Hmode; cbn [settle];
    [split; reflexivity |].
  assert (Hfold : forall ls c1,
             model (fold_left (fun acc l => invoke l acc) ls c1) = model c1
             /\ options (fold_left (fun acc l => invoke l acc) ls c1)
                = options c1).
  { induction ls as [| l ls IHl]; intro c1; simpl; [split; reflexivity |].
    destruct (IHl (invoke l c1)) as [H1 H2].
    destruct (invoke_frame l c1) as ((Ho & _) & Hm & _).
    rewrite H1, H2, Hm, Ho. split; reflexivity. }
  destruct (timers c) as [| d ts] eqn:Ht.
  - destruct (listeners c) as [| l ls] eqn:Hl; [split; reflexivity |].
    cbn [step]. rewrite Hl.
    destruct (Hfold (l :: ls) c) as [H1 H2].
    destruct (IH (fold_left (fun acc l0 => invoke l0 acc) (l :: ls) c))
      as [I1 I2]; [rewrite H2; exact Hmode |].
    rewrite I1, I2, H1, H2. split; reflexivity.
  - cbn [step]. rewrite Ht.
    destruct (run_delayed_model d (set_timers ts c) Hmode) as [H1 H2].
    destruct (IH (run_delayed d (set_timers ts c))) as [I1 I2];
      [rewrite H2; exact Hmode |].
    rewrite I1, I2, H1, H2. split; reflexivity.
Qed.

(** A move on an instance at rest, without single slides, completed by
    the host: the instance is at rest again on the committed slide. *)
Lemma completed_move (fuel : nat) (direction : Z) (opts : MoveOpts)
    (c : Carousel) :
  at_rest c ->
  contains_single (slide_mode (options c)) = false ->
  (Z.to_nat (slides (model c)) + 2 <= fuel)%nat ->
  let c' := settle fuel (move direction opts None c) in
  at_rest c'
  /\ model c' = set_current_slide (target_index c direction opts) (model c)
  /\ options c' = options c.
Proof.
  intros (Ht & Hl & Hm) Hmode Hfuel c'. subst c'.
  set (c1 := move direction opts None c).
  assert (Hc : consistent c) by (apply consistent_quiescent; assumption).
  destruct (move_consistent 0 direction opts None c I Hc) as (Hc1 & Hs1 & _).
  fold c1 in Hc1, Hs1.
  pose proof (move_in_flight direction opts None c Ht Hl Hm) as Hf1.
  fold c1 in Hf1.
  assert (Ho1 : options c1 = options c)
    by (apply (move_frame direction opts None c)).
  assert (Hm1 : model c1
                = set_current_slide (target_index c direction opts)
                    (model c)).
  { assert (Ex : exists t, move_target c (target_index c direction opts)
                           = Some t).
    { unfold move_target, raw_target.
      replace (is_single_flex (slide_mode (options c))) with false
        by (destruct (slide_mode (options c)); try discriminate; reflexivity).
      rewrite andb_false_r. eexists. reflexivity. }
    destruct Ex as [t E]. subst c1.
    rewrite (move_not_moving c direction opts None Hm), E. cbv zeta.
    destruct (nav _); reflexivity. }
  destruct (settle_consistent 0 fuel c1 Hc1) as ((Hq1 & Hq2) & _).
  { pose proof (backlog_bound c1). rewrite Hs1 in *. lia. }
  pose proof (settle_in_flight fuel c1 Hf1) as Hf.
  destruct (settle_model fuel c1) as [Hmod Hopt];
    [rewrite Ho1; exact Hmode |].
  split; [| split; [rewrite Hmod; exact Hm1 | rewrite Hopt; exact Ho1]].
  unfold at_rest. unfold in_flight in Hf. rewrite Hq1, Hq2 in Hf.
  repeat split; assumption.
Qed.

(** X21. [next()] and then [previous()], each completed, bring a carousel
    without single slides back to the slide it was on, provided it was at
    rest and not on the last slide. *)
Theorem next_previous_returns (fuel : nat) (c : Carousel) :
  at_rest c ->
  in_range c ->
  contains_single (slide_mode (options c)) = false ->
  (current_slide (model c) < slides (model c) - 1)%Z ->
  (Z.to_nat (slides (model c)) + 2 <= fuel)%nat ->
  let c1 := settle fuel (next c) in
  let c2 := settle fuel (previous c1) in
  current_slide (model c1) = (current_slide (model c) + 1)%Z
  /\ current_slide (model c2) = current_slide (model c)
  /\ at_rest c2.
Proof.
  intros Hrest [Hs Hr] Hmode Hlast Hfuel c1 c2. subst c2 c1.
  unfold next, previous.
  destruct (completed_move fuel 1 no_opts c Hrest Hmode Hfuel)
    as (R1 & M1 & O1).
  set (c1 := settle fuel (move 1 no_opts None c)) in *.
  assert (Hi1 : target_index c 1 no_opts = (current_slide (model c) + 1)%Z).
  { destruct (target_index_cases c 1 no_opts) as [[Hw _] | [_ H]].
    - destruct Hw as (_ & _ & He & _). discriminate He.
    - rewrite H. lia. }
  rewrite Hi1 in M1.
  assert (Hs1 : slides (model c1) = slides (model c))
    by (rewrite M1; reflexivity).
  assert (Hc1 : current_slide (model c1) = (current_slide (model c) + 1)%Z)
    by (rewrite M1; reflexivity).
  destruct (completed_move fuel (-1) no_opts c1 R1) as (R2 & M2 & _).
  { rewrite O1. exact Hmode. }
  { rewrite Hs1. exact Hfuel. }
  split; [exact Hc1 |]. split; [| exact R2].
  rewrite M2. cbn [current_slide set_current_slide].
  destruct (target_index_cases c1 (-1) no_opts) as [[Hw _] | [_ H]].
  - destruct Hw as (_ & Hd & _). discriminate Hd.
  - rewrite H, Hc1, Hs1. lia.
Qed.

(** The three slides: from the first to the second and back. *)
Lemma next_previous_returns_witness :
  let c1 := settle 5 (next three_slides) in
  current_slide (model c1) = 1%Z
  /\ current_slide (model (settle 5 (previous c1))) = 0%Z.
Proof.
  destruct (next_previous_returns 5 three_slides) as (H1 & H2 & _).
  - repeat split.
  - vm_compute. repeat split; discriminate.
  - reflexivity.
  - vm_compute. reflexivity.
  - vm_compute. repeat constructor.
  - split; [exact H1 | exact H2].
Defined.

(** X22. With loop enabled and no single slides, the timer goes round:
    [k] ticks, each completed, take a carousel at rest from slide [s] to
    slide [(s + k) mod slide-count], so that slide-count ticks bring it
    back to where it was. *)
Theorem timer_goes_round (fuel : nat) (c : Carousel) (k : nat) :
  at_rest c ->
  in_range c ->
  loop (options c) = true ->
  contains_single (slide_mode (options c)) = false ->
  (Z.to_nat (slides (model c)) + 2 <= fuel)%nat ->
  let ck := Nat.iter k (timer_tick fuel) c in
  at_rest ck
  /\ slides (model ck) = slides (model c)
  /\ current_slide (model ck)
     = ((current_slide (model c) + Z.of_nat k) mod slides (model c))%Z.
Proof.
  intros Hrest [Hs Hr] Hloop Hmode Hfuel. cbv zeta.
  assert (H : at_rest (Nat.iter k (timer_tick fuel) c)
              /\ slides (model (Nat.iter k (timer_tick fuel) c))
                 = slides (model c)
              /\ options (Nat.iter k (timer_tick fuel) c) = options c
              /\ current_slide (model (Nat.iter k (timer_tick fuel) c))
                 = ((current_slide (model c) + Z.of_nat k)
                      mod slides (model c))%Z).
  { induction k as [| k IH].
    - simpl. rewrite Z.add_0_r, Z.mod_small by lia. auto.
    - rewrite Nat.iter_succ. destruct IH as (R & Sl & O & C).
      set (ck := Nat.iter k (timer_tick fuel) c) in *.
      unfold timer_tick.
      destruct (completed_move fuel 1 timer_opts ck R) as (R' & M' & O').
      { rewrite O. exact Hmode. }
      { rewrite Sl. exact Hfuel. }
      split; [exact R' |]. rewrite M', O'.
      cbn [slides current_slide set_current_slide].
      split; [exact Sl |]. split; [exact O |].
      assert (Hck : (0 <= current_slide (model ck) < slides (model c))%Z)
        by (rewrite C; apply Z.mod_pos_bound; lia).
      replace (current_slide (model c) + Z.of_nat (S k))%Z
        with (current_slide (model c) + Z.of_nat k + 1)%Z by lia.
      rewrite <- Z.add_mod_idemp_l, <- C by lia.
      destruct (target_index_cases ck 1 timer_opts) as [[Hw Hi] | [Hw Hi]];
        rewrite Hi.
      + destruct Hw as (_ & _ & _ & Hlast). rewrite Sl in Hlast.
        rewrite Hlast.
        replace (slides (model c) - 1 + 1)%Z with (slides (model c)) by lia.
        rewrite Z.mod_same by lia. reflexivity.
      + assert (Hn : current_slide (model ck) <> (slides (model c) - 1)%Z).
        { intro E. apply Hw. unfold wraps. rewrite O, Sl.
          repeat split; auto. }
        rewrite Sl, Z.mod_small by lia. lia. }
  destruct H as (R & Sl & _ & C). auto.
Qed.

(** Three ticks on the three slides, from the first slide. *)
Lemma timer_goes_round_witness :
  current_slide (model (Nat.iter 2 (timer_tick 5) three_slides)) = 2%Z
  /\ current_slide (model (Nat.iter 3 (timer_tick 5) three_slides)) = 0%Z.
Proof.
  assert (H : forall k : nat,
             current_slide (model (Nat.iter k (timer_tick 5) three_slides))
             = ((current_slide (model three_slides) + Z.of_nat k)
                  mod slides (model three_slides))%Z).
  { intro k. apply (timer_goes_round 5 three_slides k).
    - repeat split.
    - vm_compute. repeat split; discriminate.
    - reflexivity.
    - reflexivity.
    - vm_compute. repeat constructor. }
  split; rewrite H; reflexivity.
Defined.
